(** * Moodle analytics: the transformation pipeline, embedded and verified

    A shallow embedding of the analytic core of the repository:

    - [src/src/preprocessing.py]  (class [MoodleDataPreprocessor]),
    - [src/src/analysis.py]       (class [MoodleAnalytics]),
    - [src/data/preprocessing.py] (class [SampleDataPreprocessor]),
    - [src/dashboard/app.py]      (the completion-rate arithmetic of
      [show_course_analytics]).

    Conventions of the embedding.

    - A DataFrame is a [list] of records, one record per row, in row order;
      a Series is a list of values.  The empty DataFrame (with its columns)
      is [[]].
    - Timestamps are whole seconds since the epoch ([Z]); identifiers of
      users and posts are [Z]; identifiers of courses and quizzes are
      [string]s (the sample feeds use ["MATH101"], ["Quiz1"]).
    - float64 arithmetic is idealised by exact rationals ([Q]) extended with
      the three IEEE special values that the pipeline can produce through a
      division: [NaN], [+inf], [-inf] (type [fnum]).  Rounding error of
      float64 is not modelled.
    - [groupby] follows pandas: one group per distinct key, keys sorted,
      rows of a group in their original order. *)

From Stdlib Require Import ZArith QArith Qminmax Qround Lia Lqa String Ascii.
From stdpp Require Import base list strings sorting.

Open Scope Z_scope.

(** ** Action categories ([categorize_action]) *)

Module Strings.

(** Python's [str.lower] on the ASCII range: [A]..[Z] become [a]..[z],
    every other byte is kept. *)
Definition lower_ascii (c : ascii) : ascii :=
  let n := nat_of_ascii c in
  if ((65 <=? n)%nat && (n <=? 90)%nat)%bool then ascii_of_nat (n + 32) else c.

Fixpoint lower (s : string) : string :=
  match s with
  | EmptyString => EmptyString
  | String c s' => String (lower_ascii c) (lower s')
  end.

(** Python's [sub in s] on strings: [sub] occurs as a contiguous substring
    of [s]; scanned left to right. *)
Fixpoint str_in (sub s : string) : bool :=
  (String.prefix sub s ||
   match s with
   | EmptyString => false
   | String _ s' => str_in sub s'
   end)%bool.

(** The keyword [kw] occurs in [s] up to the case of ASCII letters. *)
Definition occurs_ci (kw s : string) : Prop :=
  ∃ a u b : string, s = (a ++ u ++ b)%string ∧ lower u = kw.

End Strings.

Inductive category : Type := view | submit | create | update | other.

Global Instance category_eq_dec : EqDecision category.
Proof. solve_decision. Defined.

(** [MoodleDataPreprocessor.clean_log_data.categorize_action]
    (src/src/preprocessing.py). *)
Definition categorize_action (action : string) : category :=
  if Strings.str_in "viewed" (Strings.lower action) then view
  else if Strings.str_in "submitted" (Strings.lower action) then submit
  else if Strings.str_in "created" (Strings.lower action) then create
  else if Strings.str_in "updated" (Strings.lower action) then update
  else other.

Module Sample.

(** [SampleDataPreprocessor.preprocess_sample_logs.categorize_action]
    (src/data/preprocessing.py): ["created"] is folded into [submit]. *)
Definition categorize_action (action : string) : category :=
  if Strings.str_in "viewed" (Strings.lower action) then view
  else if (Strings.str_in "submitted" (Strings.lower action)
           || Strings.str_in "created" (Strings.lower action))%bool then submit
  else if Strings.str_in "updated" (Strings.lower action) then update
  else other.

End Sample.

(** ** Numbers: float64 idealised *)

(** A float64 value: a finite number or one of the IEEE special values.
    Signed zeros are not distinguished: a division of a non-zero number by
    zero takes the sign of the numerator. *)
Inductive fnum : Type :=
| Fin (q : Q)
| NaN
| PInf
| NInf.

Definition Qsign (q : Q) : comparison := (q ?= 0)%Q.

Definition inf_of_sign (c : comparison) : fnum :=
  match c with
  | Gt => PInf
  | Lt => NInf
  | Eq => NaN
  end.

Definition flip (c : comparison) : comparison := CompOpp c.

Definition fneg (x : fnum) : fnum :=
  match x with
  | Fin q => Fin (- q)
  | NaN => NaN
  | PInf => NInf
  | NInf => PInf
  end.

Definition fadd (x y : fnum) : fnum :=
  match x, y with
  | Fin a, Fin b => Fin (a + b)
  | NaN, _ | _, NaN => NaN
  | PInf, NInf | NInf, PInf => NaN
  | PInf, _ | _, PInf => PInf
  | NInf, _ | _, NInf => NInf
  end.

Definition fsub (x y : fnum) : fnum := fadd x (fneg y).

Definition fmul (x y : fnum) : fnum :=
  match x, y with
  | Fin a, Fin b => Fin (a * b)
  | NaN, _ | _, NaN => NaN
  | PInf, Fin b | Fin b, PInf => inf_of_sign (Qsign b)
  | NInf, Fin b | Fin b, NInf => inf_of_sign (flip (Qsign b))
  | PInf, PInf | NInf, NInf => PInf
  | PInf, NInf | NInf, PInf => NInf
  end.

(** True division as numpy performs it on float64 arrays: a zero divisor
    raises nothing, it yields [NaN] (for [0/0]) or an infinity. *)
Definition fdiv (x y : fnum) : fnum :=
  match x, y with
  | NaN, _ | _, NaN => NaN
  | Fin a, Fin b =>
      if Qeq_bool b 0 then inf_of_sign (Qsign a) else Fin (a / b)
  | Fin _, (PInf | NInf) => Fin 0
  | (PInf | NInf), (PInf | NInf) => NaN
  | PInf, Fin b => if Qle_bool 0 b then PInf else NInf
  | NInf, Fin b => if Qle_bool 0 b then NInf else PInf
  end.

Definition isnan (x : fnum) : bool :=
  match x with
  | NaN => true
  | _ => false
  end.

(** Equality of float values up to the representation of the rational. *)
Definition feq (x y : fnum) : Prop :=
  match x, y with
  | Fin a, Fin b => (a == b)%Q
  | NaN, NaN | PInf, PInf | NInf, NInf => True
  | _, _ => False
  end.

(** [x] is a finite number between [lo] and [hi]. *)
Definition fbetween (lo hi : Q) (x : fnum) : Prop :=
  match x with
  | Fin q => (lo <= q <= hi)%Q
  | _ => False
  end.

Definition Qsum (l : list Q) : Q := foldr Qplus 0%Q l.

Definition Zsum (l : list Z) : Z := foldr Z.add 0 l.

(** [Series.mean] on a non-empty column of finite numbers (groups of a
    [groupby] are never empty). *)
Definition Qmean (l : list Q) : Q := (Qsum l / inject_Z (Z.of_nat (length l)))%Q.

(** [Series.min] and [Series.max] of a column of finite numbers: [NaN] on
    the empty column. *)
Definition series_min (l : list Q) : fnum :=
  match l with
  | [] => NaN
  | x :: l' => Fin (foldl Qmin x l')
  end.

Definition series_max (l : list Q) : fnum :=
  match l with
  | [] => NaN
  | x :: l' => Fin (foldl Qmax x l')
  end.

(** [Series.mean] with [skipna=True] on a float column: [NaN] entries are
    dropped, the mean of nothing is [NaN]. *)
Definition fmean_skipna (l : list fnum) : fnum :=
  let kept := filter (λ x, isnan x = false) l in
  match kept with
  | [] => NaN
  | _ => fdiv (foldr fadd (Fin 0) kept) (Fin (inject_Z (Z.of_nat (length kept))))
  end.

(** Rounding to the nearest integer, halves to the even neighbour
    ([numpy.rint]). *)
Definition Qrint (q : Q) : Z :=
  let f := Qfloor q in
  match (q - inject_Z f ?= 1 # 2)%Q with
  | Lt => f
  | Gt => f + 1
  | Eq => if Z.even f then f else f + 1
  end.

(** [Series.round(1)]. *)
Definition round1 (x : fnum) : fnum :=
  match x with
  | Fin q => Fin (inject_Z (Qrint (q * 10)) / 10)
  | _ => x
  end.

(** ** Tables and [groupby] *)

(** Group keys are compared lexicographically, component by component. *)
Definition string_le (a b : string) : Prop :=
  match String.compare a b with
  | Gt => False
  | _ => True
  end.

Global Instance string_le_dec (a b : string) : Decision (string_le a b).
Proof. unfold string_le. destruct (String.compare a b); apply _. Defined.

Definition key2 : Type := Z * string.

Definition key3 : Type := Z * string * Z.

Definition key2_le (a b : key2) : Prop :=
  a.1 < b.1 ∨ (a.1 = b.1 ∧ string_le a.2 b.2).

Definition key3_le (a b : key3) : Prop :=
  a.1.1 < b.1.1 ∨
  (a.1.1 = b.1.1 ∧
   (a.1.2 ≠ b.1.2 ∧ string_le a.1.2 b.1.2 ∨ a.1.2 = b.1.2 ∧ a.2 ≤ b.2)).

Global Instance key2_le_dec (a b : key2) : Decision (key2_le a b).
Proof. unfold key2_le. apply _. Defined.

Global Instance key3_le_dec (a b : key3) : Decision (key3_le a b).
Proof. unfold key3_le. apply _. Defined.

Section GroupBy.
Context {A K : Type} `{EqDecision K}.
Context (le : relation K) `{∀ x y, Decision (le x y)}.
Context (key : A → K).

(** The rows of the group of [k], in their original order. *)
Definition group_rows (k : K) (rows : list A) : list A :=
  filter (λ r, key r = k) rows.

(** The distinct keys of the table, sorted. *)
Definition group_keys (rows : list A) : list K :=
  merge_sort le (remove_dups (key <$> rows)).

(** [DataFrame.groupby(keys)]: every distinct key with its rows. *)
Definition groupby (rows : list A) : list (K * list A) :=
  (λ k, (k, group_rows k rows)) <$> group_keys rows.

End GroupBy.

(** [pd.Grouper(key = 'time_created', freq = ...)]: the start of the time
    bucket of width [period] seconds that contains [t]; ['D'] is one day. *)
Definition bucket_start (period t : Z) : Z := period * (t / period).

Definition freq_D : Z := 86400.

(** ** Engagement metrics *)

(** A cleaned log row, restricted to the columns the aggregation reads. *)
Record LogRow : Type := mkLog {
  log_id : Z;
  log_userid : Z;
  log_courseid : string;
  log_time_created : Z;
  log_action_category : category
}.

Record EngagementRow : Type := mkEngagement {
  eng_userid : Z;
  eng_courseid : string;
  eng_time_created : Z;
  eng_total_actions : Z;
  eng_submissions : Z;
  eng_active_minutes : Z
}.

Definition log_key (period : Z) (r : LogRow) : key3 :=
  (log_userid r, log_courseid r, bucket_start period (log_time_created r)).

(** The aggregate [lambda x: (x == 'submit').sum()] over a group. *)
Definition count_submit (rows : list LogRow) : Z :=
  Z.of_nat (length (filter (λ r, log_action_category r = submit) rows)).

(** [MoodleDataPreprocessor.create_engagement_metrics]
    (src/src/preprocessing.py). *)
Definition create_engagement_metrics_period (period : Z) (log_data : list LogRow)
  : list EngagementRow :=
  (λ g : key3 * list LogRow,
     let total_actions := Z.of_nat (length g.2) in
     {| eng_userid := g.1.1.1;
        eng_courseid := g.1.1.2;
        eng_time_created := g.1.2;
        eng_total_actions := total_actions;
        eng_submissions := count_submit g.2;
        eng_active_minutes := total_actions * 2 |})
  <$> groupby key3_le (log_key period) log_data.

(** The call with the default [time_period = 'D']. *)
Definition create_engagement_metrics (log_data : list LogRow) : list EngagementRow :=
  create_engagement_metrics_period freq_D log_data.

Definition eng_key3 (e : EngagementRow) : key3 :=
  (eng_userid e, eng_courseid e, eng_time_created e).

Definition eng_key2 (e : EngagementRow) : key2 := (eng_userid e, eng_courseid e).

(** The weighted formula of [calculate_student_engagement_scores]. *)
Definition engagement_score_formula (total_actions total_submissions total_active_minutes : Z) : Q :=
  (inject_Z total_actions * 0.3 + inject_Z total_submissions * 0.4
   + inject_Z total_active_minutes * 0.3)%Q.

Record ScoreRow : Type := mkScore {
  sc_userid : Z;
  sc_courseid : string;
  sc_total_actions : Z;
  sc_avg_actions : Q;
  sc_total_submissions : Z;
  sc_total_active_minutes : Z;
  sc_engagement_score : Q;
  sc_engagement_score_normalized : fnum
}.

(** The grouped and scored table before normalisation.  The column
    [std_actions] (a sample standard deviation, which no later step reads)
    is not carried. *)
Definition score_groups (engagement_data : list EngagementRow)
  : list (key2 * list EngagementRow) :=
  groupby key2_le eng_key2 engagement_data.

Definition raw_score (g : key2 * list EngagementRow) : Q :=
  engagement_score_formula
    (Zsum (eng_total_actions <$> g.2))
    (Zsum (eng_submissions <$> g.2))
    (Zsum (eng_active_minutes <$> g.2)).

(** Min-max scaling of one score against the whole column. *)
Definition normalize (column : list Q) (score : Q) : fnum :=
  fmul
    (fdiv (fsub (Fin score) (series_min column))
          (fsub (series_max column) (series_min column)))
    (Fin 100).

(** [MoodleAnalytics.calculate_student_engagement_scores]
    (src/src/analysis.py). *)
Definition calculate_student_engagement_scores (engagement_data : list EngagementRow)
  : list ScoreRow :=
  let groups := score_groups engagement_data in
  let column := raw_score <$> groups in
  (λ g : key2 * list EngagementRow,
     {| sc_userid := g.1.1;
        sc_courseid := g.1.2;
        sc_total_actions := Zsum (eng_total_actions <$> g.2);
        sc_avg_actions :=
          (inject_Z (Zsum (eng_total_actions <$> g.2))
           / inject_Z (Z.of_nat (length g.2)))%Q;
        sc_total_submissions := Zsum (eng_submissions <$> g.2);
        sc_total_active_minutes := Zsum (eng_active_minutes <$> g.2);
        sc_engagement_score := raw_score g;
        sc_engagement_score_normalized := normalize column (raw_score g) |})
  <$> groups.

(** ** The sample pipeline: engagement score and risk tiers *)

Record SampleEngagementRow : Type := mkSampleEngagement {
  se_userid : Z;
  se_courseid : string;
  se_time_created : Z;
  se_total_actions : Z;
  se_submissions : Z;
  se_active_days : Z;
  se_active_minutes : Z;
  se_engagement_score : Q
}.

(** The weighted formula of [create_sample_engagement_metrics]. *)
Definition sample_score_formula (total_actions submissions active_minutes : Z) : Q :=
  (inject_Z total_actions * 0.4 + inject_Z submissions * 0.4
   + inject_Z active_minutes * 0.2)%Q.

(** The aggregate ['nunique'] over the timestamps of a group. *)
Definition nunique (l : list Z) : Z := Z.of_nat (length (remove_dups l)).

(** [SampleDataPreprocessor.create_sample_engagement_metrics]
    (src/data/preprocessing.py). *)
Definition create_sample_engagement_metrics_period (period : Z) (logs_df : list LogRow)
  : list SampleEngagementRow :=
  (λ g : key3 * list LogRow,
     let total_actions := Z.of_nat (length g.2) in
     let submissions := count_submit g.2 in
     let active_minutes := total_actions * 2 in
     {| se_userid := g.1.1.1;
        se_courseid := g.1.1.2;
        se_time_created := g.1.2;
        se_total_actions := total_actions;
        se_submissions := submissions;
        se_active_days := nunique (log_time_created <$> g.2);
        se_active_minutes := active_minutes;
        se_engagement_score :=
          sample_score_formula total_actions submissions active_minutes |})
  <$> groupby key3_le (log_key period) logs_df.

Definition create_sample_engagement_metrics (logs_df : list LogRow)
  : list SampleEngagementRow :=
  create_sample_engagement_metrics_period freq_D logs_df.

Inductive risk_tier : Type := HighRisk | MediumRisk | LowRisk | VeryLowRisk.

Global Instance risk_tier_eq_dec : EqDecision risk_tier.
Proof. solve_decision. Defined.

Global Instance Qle_dec (x y : Q) : Decision (x <= y)%Q.
Proof. destruct (Qlt_le_dec y x); [right; lra | left; assumption]. Defined.

Global Instance Qeq_decision (x y : Q) : Decision (x == y)%Q.
Proof. destruct (Qeq_dec x y); [left | right]; assumption. Defined.

Global Instance Qlt_dec (x y : Q) : Decision (x < y)%Q.
Proof. destruct (Qlt_le_dec x y); [left; assumption | right; lra]. Defined.

(** [numpy.searchsorted(bins, x, side='left')] on increasing [bins]: the
    number of leading edges strictly below [x]. *)
Fixpoint searchsorted_left (bins : list Q) (x : Q) : nat :=
  match bins with
  | [] => O
  | b :: bins' => if decide (b < x)%Q then S (searchsorted_left bins' x) else O
  end.

(** [pd.cut(x, bins, labels, right=True, include_lowest)] for one value:
    the bin index comes from [searchsorted_left]; with [include_lowest] a
    value equal to the first edge joins the first bin; an index of [0] or
    [len(bins)] is outside every bin and yields no label (NaN). *)
Definition cut {L : Type} (bins : list Q) (labels : list L) (include_lowest : bool)
  (x : Q) : option L :=
  let ids := searchsorted_left bins x in
  let ids :=
    match bins with
    | b0 :: _ => if (include_lowest && bool_decide (x == b0)%Q)%bool then 1%nat else ids
    | [] => ids
    end in
  if bool_decide (ids = O ∨ ids = length bins) then None
  else labels !! (ids - 1)%nat.

Definition risk_bins : list Q := [0; 25; 50; 75; 100]%Q.

Definition grade_bins : list Q := [0; 50; 70; 85; 100]%Q.

Definition risk_labels : list risk_tier := [HighRisk; MediumRisk; LowRisk; VeryLowRisk].

(** The risk tier of a percentile, as [generate_sample_risk_analysis] cuts
    it. *)
Definition risk_level_of (percentile : Q) : option risk_tier :=
  cut risk_bins risk_labels true percentile.

Definition grade_risk_of (avg_quiz_score : Q) : option risk_tier :=
  cut grade_bins risk_labels true avg_quiz_score.

(** [Series.rank(method='average')]: the values are sorted, every value
    takes the positions [1..n] it occupies in the sorted column, and tied
    values share the average of their positions.  [positions_sum k x s] adds
    up the positions of the entries of [s] equal to [x], the head of [s]
    standing at position [k]. *)
Fixpoint positions_sum (k : Z) (x : Q) (s : list Q) : Z :=
  match s with
  | [] => 0
  | y :: s' => (if decide (y == x)%Q then k else 0) + positions_sum (k + 1) x s'
  end.

Definition count_eq (x : Q) (l : list Q) : Z :=
  Z.of_nat (length (filter (λ y, (y == x)%Q) l)).

Definition count_lt (x : Q) (l : list Q) : Z :=
  Z.of_nat (length (filter (λ y, (y < x)%Q) l)).

Definition rank_average (column : list Q) (x : Q) : Q :=
  (inject_Z (positions_sum 1 x (merge_sort Qle column))
   / inject_Z (count_eq x column))%Q.

(** [Series.rank(pct=True)]: the rank divided by the number of values. *)
Definition rank_pct (column : list Q) (x : Q) : Q :=
  (rank_average column x / inject_Z (Z.of_nat (length column)))%Q.

Record QuizGradeRow : Type := mkQuizGrade {
  qg_userid : Z;
  qg_quiz : string;
  qg_final_grade : Q
}.

Record RiskRow : Type := mkRisk {
  rk_userid : Z;
  rk_courseid : string;
  rk_engagement_score : Q;
  rk_total_actions : Z;
  rk_submissions : Z;
  rk_active_minutes : Z;
  rk_engagement_percentile : Q;
  rk_risk_level : option risk_tier;
  (** [None]: the two quiz columns are absent; [Some (None, _)]: no quiz
      grade matched the row (NaN). *)
  rk_quiz : option (option Q * option risk_tier)
}.

Definition se_key2 (e : SampleEngagementRow) : key2 := (se_userid e, se_courseid e).

Definition qg_key2 (q : QuizGradeRow) : key2 := (qg_userid q, qg_quiz q).

(** The left merge with the per-(user, quiz) mean grade: the grouped right
    side has one row per key, so every risk row keeps exactly one row. *)
Definition quiz_columns (quiz_df : option (list QuizGradeRow)) (k : key2)
  : option (option Q * option risk_tier) :=
  match quiz_df with
  | None | Some [] => None
  | Some rows =>
      let quiz_risk :=
        (λ g : key2 * list QuizGradeRow, (g.1, Qmean (qg_final_grade <$> g.2)))
        <$> groupby key2_le qg_key2 rows in
      match list_find (λ g : key2 * Q, g.1 = k) quiz_risk with
      | Some (_, (_, avg)) => Some (Some avg, grade_risk_of avg)
      | None => Some (None, None)
      end
  end.

(** [SampleDataPreprocessor.generate_sample_risk_analysis]
    (src/data/preprocessing.py). *)
Definition generate_sample_risk_analysis (engagement_df : list SampleEngagementRow)
  (quiz_df : option (list QuizGradeRow)) : list RiskRow :=
  let groups := groupby key2_le se_key2 engagement_df in
  let column := (λ g : key2 * list SampleEngagementRow,
                   Qmean (se_engagement_score <$> g.2)) <$> groups in
  (λ g : key2 * list SampleEngagementRow,
     let score := Qmean (se_engagement_score <$> g.2) in
     let percentile := (rank_pct column score * 100)%Q in
     {| rk_userid := g.1.1;
        rk_courseid := g.1.2;
        rk_engagement_score := score;
        rk_total_actions := Zsum (se_total_actions <$> g.2);
        rk_submissions := Zsum (se_submissions <$> g.2);
        rk_active_minutes := Zsum (se_active_minutes <$> g.2);
        rk_engagement_percentile := percentile;
        rk_risk_level := risk_level_of percentile;
        rk_quiz := quiz_columns quiz_df g.1 |})
  <$> groups.

(** ** Quiz attempts *)

Record QuizRow : Type := mkQuiz {
  qz_userid : Z;
  qz_quiz : string;
  qz_timestart : Z;
  qz_timefinish : Z
}.

Record QuizOut : Type := mkQuizOut {
  qo_row : QuizRow;
  qo_duration_minutes : Q;
  qo_attempt_number : Z;
  qo_is_first_attempt : bool;
  qo_is_last_attempt : bool
}.

Definition quiz_key (r : QuizRow) : key2 := (qz_userid r, qz_quiz r).


(** [groupby(keys).cumcount() + 1], row by row: a row is numbered one more
    than the count of the rows of its group that stand before it.  [seen]
    holds the keys of the rows already passed. *)
Fixpoint attempt_numbers (seen : list key2) (rows : list QuizRow) : list Z :=
  match rows with
  | [] => []
  | r :: rows' =>
      (Z.of_nat (length (filter (λ k, k = quiz_key r) seen)) + 1)
      :: attempt_numbers (quiz_key r :: seen) rows'
  end.

(** [groupby(keys)['attempt_number'].transform('max')] for the group of
    [k]. *)
Definition group_max (k : key2) (numbered : list (QuizRow * Z)) : Z :=
  match snd <$> filter (λ p : QuizRow * Z, quiz_key p.1 = k) numbered with
  | [] => 0
  | n :: ns => foldl Z.max n ns
  end.

(** [MoodleDataPreprocessor.process_quiz_data] (src/src/preprocessing.py). *)
Definition process_quiz_data (df : list QuizRow) : list QuizOut :=
  let numbered := zip df (attempt_numbers [] df) in
  (λ p : QuizRow * Z,
     {| qo_row := p.1;
        qo_duration_minutes :=
          (inject_Z (qz_timefinish p.1 - qz_timestart p.1) / 60)%Q;
        qo_attempt_number := p.2;
        qo_is_first_attempt := bool_decide (p.2 = 1);
        qo_is_last_attempt := bool_decide (group_max (quiz_key p.1) numbered = p.2) |})
  <$> numbered.


(** ** Forum posts *)

Record ForumRow : Type := mkForum {
  fp_id : Z;
  fp_userid : Z;
  fp_username : string;
  fp_parent : Z;
  fp_created : Z;
  fp_is_reply : bool
}.

(** A duration in seconds as hours ([total_seconds() / 3600]). *)
Definition hours (seconds : Z) : Q := Qred (inject_Z seconds / 3600).

(** [df.nsmallest(1, 'created').iloc[0]]: the row with the least creation
    time, the first of them in row order. *)
Fixpoint nsmallest1 (first : ForumRow) (others : list ForumRow) : ForumRow :=
  match others with
  | [] => first
  | r :: others' =>
      if decide (fp_created r < fp_created first) then nsmallest1 r others'
      else nsmallest1 first others'
  end.

(** The body of the loop of [_calculate_reply_times] for one row; [None]
    is [np.nan]. *)
Definition reply_time (df : list ForumRow) (row : ForumRow) : option Q :=
  if decide (fp_parent row > 0) then
    match filter (λ p, fp_id p = fp_parent row) df with
    | parent_post :: _ => Some (hours (fp_created row - fp_created parent_post))
    | [] => None
    end
  else
    match filter (λ p, fp_parent p = fp_id row) df with
    | r :: replies =>
        let first_reply := nsmallest1 r replies in
        Some (hours (fp_created first_reply - fp_created row))
    | [] => None
    end.

(** [MoodleDataPreprocessor._calculate_reply_times]
    (src/src/preprocessing.py). *)
Definition _calculate_reply_times (df : list ForumRow) : list (option Q) :=
  reply_time df <$> df.

(** ** The forum interaction graph *)

(** [networkx.DiGraph]: nodes in insertion order with their [username]
    attribute, and a set of directed edges (no parallel edges). *)
Record DiGraph : Type := mkDiGraph {
  nodes : list (Z * option string);
  edges : list (Z * Z)
}.

Definition empty_graph : DiGraph := {| nodes := []; edges := [] |}.

Definition has_node (G : DiGraph) (u : Z) : bool := bool_decide (u ∈ (nodes G).*1).

(** [G.add_node(u, username=name)]: a new node, or the attribute of an
    existing one updated. *)
Definition add_node (u : Z) (name : string) (G : DiGraph) : DiGraph :=
  if has_node G u then
    {| nodes := (λ n : Z * option string, if decide (n.1 = u) then (u, Some name) else n)
                <$> nodes G;
       edges := edges G |}
  else {| nodes := nodes G ++ [(u, Some name)]; edges := edges G |}.

Definition touch_node (u : Z) (G : DiGraph) : DiGraph :=
  if has_node G u then G
  else {| nodes := nodes G ++ [(u, None)]; edges := edges G |}.

(** [G.add_edge(u, v)]: missing end points become nodes; an edge that is
    already present is not added twice. *)
Definition add_edge (u v : Z) (G : DiGraph) : DiGraph :=
  let G' := touch_node v (touch_node u G) in
  if bool_decide ((u, v) ∈ edges G') then G'
  else {| nodes := nodes G'; edges := edges G' ++ [(u, v)] |}.


Definition number_of_edges (G : DiGraph) : Z := Z.of_nat (length (edges G)).

(** [networkx.number_of_selfloops]. *)
Definition number_of_selfloops (G : DiGraph) : Z :=
  Z.of_nat (length (filter (λ e : Z * Z, e.1 = e.2) (edges G))).


(** One turn of the edge loop of [analyze_forum_interaction_network]. *)
Definition add_reply_edge (forum_data : list ForumRow) (G : DiGraph) (row : ForumRow)
  : DiGraph :=
  if (fp_is_reply row && bool_decide (fp_parent row > 0))%bool then
    match filter (λ p, fp_id p = fp_parent row) forum_data with
    | parent_post :: _ => add_edge (fp_userid row) (fp_userid parent_post) G
    | [] => G
    end
  else G.

(** [forum_data[['userid', 'username']].drop_duplicates()]: first
    occurrences, in row order. *)
Fixpoint drop_duplicates {A : Type} `{EqDecision A} (seen l : list A) : list A :=
  match l with
  | [] => []
  | x :: l' =>
      if decide (x ∈ seen) then drop_duplicates seen l'
      else x :: drop_duplicates (x :: seen) l'
  end.


(** [MoodleAnalytics.analyze_forum_interaction_network]
    (src/src/analysis.py): the graph, and the metrics that are plain
    counts.  Clustering and centrality are further read-only functions of
    the same graph and are not carried. *)
Definition forum_graph (forum_data : list ForumRow) : DiGraph :=
  let users := drop_duplicates [] ((λ r, (fp_userid r, fp_username r)) <$> forum_data) in
  let G := foldl (λ G (u : Z * string), add_node u.1 u.2 G) empty_graph users in
  foldl (add_reply_edge forum_data) G forum_data.


(** A reply whose parent resolves in the post set. *)
Definition resolvable_reply (forum_data : list ForumRow) (row : ForumRow) : Prop :=
  fp_is_reply row = true ∧ fp_parent row > 0 ∧
  ∃ p, p ∈ forum_data ∧ fp_id p = fp_parent row.

Global Instance resolvable_reply_dec forum_data row :
  Decision (resolvable_reply forum_data row).
Proof.
  unfold resolvable_reply.
  refine (and_dec _ (and_dec _ _)).
  apply (list_exist_dec (λ p, fp_id p = fp_parent row)).
  intros; apply _.
Defined.

(** ** Course analytics (dashboard) *)

Record CourseRow : Type := mkCourse {
  c_fullname : string;
  c_enrolled_users : Z;
  c_completions : Z
}.

Definition Zf (z : Z) : fnum := Fin (inject_Z z).

(** [Series.replace(0, np.nan)] on the integer enrolment column. *)
Definition replace_zero_nan (z : Z) : fnum := if decide (z = 0) then NaN else Zf z.

(** The headline metric of [show_course_analytics] (src/dashboard/app.py),
    reached only with a non-empty [course_data]:
    [(completions / enrolled_users.replace(0, nan)).mean() * 100], and [0]
    in place of a NaN. *)
Definition avg_completion_rate (course_data : list CourseRow) : fnum :=
  let completion_rate :=
    match course_data with
    | [] => Fin 0
    | _ =>
        fmul (fmean_skipna
                ((λ c, fdiv (Zf (c_completions c)) (replace_zero_nan (c_enrolled_users c)))
                 <$> course_data))
             (Fin 100)
    end in
  if isnan completion_rate then Fin 0 else completion_rate.

(** [DataFrame.nlargest(n, 'enrolled_users')]: the [n] rows with the most
    enrolments, largest first, ties in row order. *)
Fixpoint insert_desc (c : CourseRow) (sorted : list CourseRow) : list CourseRow :=
  match sorted with
  | [] => [c]
  | d :: sorted' =>
      if decide (c_enrolled_users d > c_enrolled_users c)
      then d :: insert_desc c sorted'
      else c :: sorted
  end.

Definition nlargest (n : nat) (course_data : list CourseRow) : list CourseRow :=
  take n (foldr insert_desc [] course_data).

(** The per-course column of the table "Top Courses by Enrollment":
    [(completions / enrolled_users * 100).round(1)]. *)
Definition completion_rate (c : CourseRow) : fnum :=
  round1 (fmul (fdiv (Zf (c_completions c)) (Zf (c_enrolled_users c))) (Fin 100)).

Definition top_courses (course_data : list CourseRow) : list (CourseRow * fnum) :=
  (λ c, (c, completion_rate c)) <$> nlargest 10 course_data.

(** ** Clustering *)

Inductive exn : Type := ValueError.

Inductive result (A : Type) : Type :=
| Ok (a : A)
| Raise (e : exn).

Arguments Ok {A} a.
Arguments Raise {A} e.

(** The error monad of a fallible stage, under stdpp's [x ← r; k]. *)
Global Instance result_bind : MBind result :=
  λ A B (f : A → result B) (r : result A),
    match r with
    | Ok a => f a
    | Raise e => Raise e
    end.

Record BehaviorRow : Type := mkBehavior {
  bh_userid : Z;
  bh_day_of_week : string;
  bh_total_actions : Z
}.

Global Instance string_le_rel_dec : RelDecision string_le := string_le_dec.

(** [DataFrame.pivot_table(index='userid', columns='day_of_week',
    values='total_actions', aggfunc='sum', fill_value=0)]: one row per
    user, one column per day name that occurs. *)
Definition pivot_table (engagement_data : list BehaviorRow) : list (Z * list Q) :=
  let users := merge_sort Z.le (remove_dups (bh_userid <$> engagement_data)) in
  let days := merge_sort string_le (remove_dups (bh_day_of_week <$> engagement_data)) in
  (λ u,
     (u, (λ d, inject_Z
                 (Zsum (bh_total_actions <$>
                          filter (λ r, bh_userid r = u ∧ bh_day_of_week r = d)
                                 engagement_data)))
         <$> days))
  <$> users.

Record ClusterResult : Type := mkClusters {
  clusters : list (Z * nat);
  profiles : list (nat * list Q)
}.

(** The mean of every column over the rows of a group. *)
Definition column_means (rows : list (list Q)) : list Q :=
  match rows with
  | [] => []
  | r :: _ => (λ j, Qmean ((λ row : list Q, default 0%Q (row !! j)) <$> rows))
              <$> seq 0 (length r)
  end.

Section Clustering.

(** The numeric kernels of scikit-learn are taken as given: the scaling to
    zero mean and unit variance (it needs square roots) and the k-means
    labelling under [random_state=42].  Their input validation is
    scikit-learn's [check_array]: an array without samples is refused with
    a [ValueError], and so is one with fewer samples than clusters. *)
Variable standardize : list (list Q) → list (list Q).
Variable kmeans_labels : nat → list (list Q) → list nat.

Definition StandardScaler_fit_transform (X : list (list Q)) : result (list (list Q)) :=
  match X with
  | [] => Raise ValueError
  | _ => Ok (standardize X)
  end.

Definition KMeans_fit_predict (n_clusters : nat) (X : list (list Q)) : result (list nat) :=
  if decide (length X < n_clusters)%nat then Raise ValueError
  else Ok (kmeans_labels n_clusters X).

(** [MoodleAnalytics.cluster_students_by_behavior] (src/src/analysis.py). *)
Definition cluster_students_by_behavior (engagement_data : list BehaviorRow)
  (n_clusters : nat) : result ClusterResult :=
  let features := pivot_table engagement_data in
  features_scaled ← StandardScaler_fit_transform (features.*2);
  labels ← KMeans_fit_predict n_clusters features_scaled;
  let labelled := zip features labels in
  Ok {| clusters := (λ p : (Z * list Q) * nat, (p.1.1, p.2)) <$> labelled;
        profiles :=
          (λ c, (c, column_means
                      ((λ p : (Z * list Q) * nat, p.1.2)
                       <$> filter (λ p : (Z * list Q) * nat, p.2 = c) labelled)))
          <$> merge_sort le (remove_dups labels) |}.

End Clustering.

(** ** Cleaning of the raw logs *)

Module Split.

(** Python's [s.split(sep)] for a one-character separator: the pieces
    between the separators, in order; never an empty list. *)
Fixpoint split (sep : ascii) (s : string) : list string :=
  match s with
  | EmptyString => [EmptyString]
  | String c s' =>
      if decide (c = sep) then EmptyString :: split sep s'
      else
        match split sep s' with
        | piece :: pieces => String c piece :: pieces
        | [] => [String c EmptyString]
        end
  end.

(** [l[-1]] on a list that [split] produced. *)
Definition last_piece (pieces : list string) : string :=
  default EmptyString (last pieces).

Definition backslash : ascii := ascii_of_nat 92.

(** The separator occurs in the string ([sep in s]). *)
Fixpoint has_char (sep : ascii) (s : string) : bool :=
  match s with
  | EmptyString => false
  | String c s' => (bool_decide (c = sep) || has_char sep s')%bool
  end.

End Split.

Record RawLogRow : Type := mkRawLog {
  raw_id : Z;
  raw_userid : Z;
  raw_courseid : string;
  raw_timecreated : Z;
  raw_eventname : string;
  raw_component : string
}.

Record CleanLogRow : Type := mkCleanLog {
  cl_raw : RawLogRow;
  cl_time_created : Z;
  cl_hour : Z;
  cl_day_of_week : string;
  cl_date : Z;
  cl_action_type : string;
  cl_action_category : category
}.

Definition seconds_per_day : Z := 86400.

(** [dt.hour] of a timestamp in seconds (UTC). *)
Definition hour_of (t : Z) : Z := (t mod seconds_per_day) / 3600.

(** [dt.date], as the number of the day since 1970-01-01. *)
Definition date_of (t : Z) : Z := t / seconds_per_day.

(** [dt.day_name()]: day 0 of the epoch was a Thursday. *)
Definition day_names : list string :=
  ["Thursday"; "Friday"; "Saturday"; "Sunday"; "Monday"; "Tuesday"; "Wednesday"]%string.

Definition day_name_of (t : Z) : string :=
  default EmptyString (day_names !! Z.to_nat (date_of t mod 7)).

(** The lambda of [clean_log_data]:
    [x.split('\\')[-1] if '\\' in str(x) else x]. *)
Definition action_type_of (eventname : string) : string :=
  if Split.has_char Split.backslash eventname
  then Split.last_piece (Split.split Split.backslash eventname)
  else eventname.

(** [MoodleDataPreprocessor.clean_log_data] (src/src/preprocessing.py). *)
Definition clean_log_data (df : list RawLogRow) : list CleanLogRow :=
  (λ r,
     let action_type := action_type_of (raw_eventname r) in
     {| cl_raw := r;
        cl_time_created := raw_timecreated r;
        cl_hour := hour_of (raw_timecreated r);
        cl_day_of_week := day_name_of (raw_timecreated r);
        cl_date := date_of (raw_timecreated r);
        cl_action_type := action_type;
        cl_action_category := categorize_action action_type |})
  <$> df.

(** The columns of a cleaned row that the aggregation reads. *)
Definition log_of_clean (c : CleanLogRow) : LogRow :=
  {| log_id := raw_id (cl_raw c);
     log_userid := raw_userid (cl_raw c);
     log_courseid := raw_courseid (cl_raw c);
     log_time_created := cl_time_created c;
     log_action_category := cl_action_category c |}.

(** ** Order of the risk tiers *)

(** The tiers from the most to the least at risk. *)
Definition tier_rank (t : risk_tier) : Z :=
  match t with
  | HighRisk => 0
  | MediumRisk => 1
  | LowRisk => 2
  | VeryLowRisk => 3
  end.

(** ** Students at risk *)


Record GradeRow : Type := mkGrade {
  gr_userid : Z;
  gr_courseid : string;
  gr_final_grade : fnum
}.

Record AtRiskRow : Type := mkAtRisk {
  ar_score : ScoreRow;
  ar_risk_level : option risk_tier;
  (** [None]: no quiz grades were given; otherwise the merged [final_grade]
      (NaN when no grade matched) and the [grade_based_risk]. *)
  ar_grade : option (fnum * risk_tier)
}.

(** The comparison [x < t] of a float with a number: false on NaN. *)
Definition flt (x : fnum) (t : Q) : bool :=
  match x with
  | Fin q => bool_decide (q < t)%Q
  | NInf => true
  | NaN | PInf => false
  end.

Definition at_risk_bins : list Q := [0; 15; 30; 100]%Q.

Definition at_risk_labels : list risk_tier := [HighRisk; MediumRisk; LowRisk].

(** [pd.cut] on a float: NaN and the infinities fall in no bin. *)
Definition cut_fnum {L : Type} (bins : list Q) (labels : list L) (include_lowest : bool)
  (x : fnum) : option L :=
  match x with
  | Fin q => cut bins labels include_lowest q
  | _ => None
  end.

(** The lambda of [grade_based_risk]:
    ['High Risk' if x < 50 else ('Medium Risk' if x < 70 else 'Low Risk')]. *)
Definition grade_based_risk (x : fnum) : risk_tier :=
  if flt x 50 then HighRisk else if flt x 70 then MediumRisk else LowRisk.

(** [DataFrame.merge(right, on=['userid', 'courseid'], how='left')] for one
    left row: one row per matching grade, in the order of the right table,
    or a single row with a NaN grade. *)
Definition merge_grades (quiz_grades : list GradeRow) (s : ScoreRow) : list fnum :=
  match filter (λ g, gr_userid g = sc_userid s ∧ gr_courseid g = sc_courseid s)
               quiz_grades with
  | [] => [NaN]
  | matches => gr_final_grade <$> matches
  end.

(** [MoodleAnalytics.identify_at_risk_students] (src/src/analysis.py). *)
Definition identify_at_risk_students (engagement_scores : list ScoreRow)
  (quiz_grades : option (list GradeRow)) (threshold : Q) : list AtRiskRow :=
  let at_risk :=
    filter (λ s, flt (sc_engagement_score_normalized s) threshold = true)
           engagement_scores in
  let risk_level s :=
    cut_fnum at_risk_bins at_risk_labels false (sc_engagement_score_normalized s) in
  match quiz_grades with
  | None =>
      (λ s, {| ar_score := s; ar_risk_level := risk_level s; ar_grade := None |})
      <$> at_risk
  | Some grades =>
      s ← at_risk;
      (λ g, {| ar_score := s; ar_risk_level := risk_level s;
               ar_grade := Some (g, grade_based_risk g) |})
      <$> merge_grades grades s
  end.


(** ** Sample quiz attempts *)

Record AttemptRow : Type := mkAttempt {
  at_userid : Z;
  at_quiz : string;
  at_attempt : Z;
  at_timestart : Z;
  at_timefinish : Z;
  at_sumgrades : Q
}.

Record QuizInfoRow : Type := mkQuizInfo {
  qi_id : string;
  qi_name : string
}.

Record MergedAttempt : Type := mkMerged {
  ma_attempt : AttemptRow;
  ma_duration_minutes : Q;
  ma_final_grade : Q;
  ma_is_first_attempt : bool;
  ma_is_last_attempt : bool;
  (** The columns of the quiz table; [None] when no quiz has the id. *)
  ma_quiz_info : option QuizInfoRow
}.

Definition attempt_key (a : AttemptRow) : key2 := (at_userid a, at_quiz a).

(** [groupby(keys)['attempt'].transform('min')] and [transform('max')] for
    the group of [k]. *)
Definition group_attempts (k : key2) (attempts : list AttemptRow) : list Z :=
  at_attempt <$> filter (λ a, attempt_key a = k) attempts.

Definition list_min (l : list Z) : Z :=
  match l with
  | [] => 0
  | x :: l' => foldl Z.min x l'
  end.

Definition list_max (l : list Z) : Z :=
  match l with
  | [] => 0
  | x :: l' => foldl Z.max x l'
  end.

(** [SampleDataPreprocessor.preprocess_sample_quizzes]
    (src/data/preprocessing.py). *)
Definition preprocess_sample_quizzes (quizzes_df : list QuizInfoRow)
  (attempts_df : list AttemptRow) : list MergedAttempt :=
  a ← attempts_df;
  let row info :=
    {| ma_attempt := a;
       ma_duration_minutes := (inject_Z (at_timefinish a - at_timestart a) / 60)%Q;
       ma_final_grade := (at_sumgrades a * 100)%Q;
       ma_is_first_attempt :=
         bool_decide (list_min (group_attempts (attempt_key a) attempts_df) = at_attempt a);
       ma_is_last_attempt :=
         bool_decide (list_max (group_attempts (attempt_key a) attempts_df) = at_attempt a);
       ma_quiz_info := info |} in
  match filter (λ q, qi_id q = at_quiz a) quizzes_df with
  | [] => [row None]
  | matches => (λ q, row (Some q)) <$> matches
  end.

(** ** Forum posts, from the raw rows *)

Record RawForumRow : Type := mkRawForum {
  rf_id : Z;
  rf_userid : Z;
  rf_username : string;
  rf_parent : Z;
  rf_created : Z;
  rf_modified : Z;
  rf_message : string
}.

Record ProcessedForumRow : Type := mkProcessedForum {
  pf_row : ForumRow;
  pf_modified : Z;
  pf_post_length : Z;
  pf_hours_to_first_reply : option Q
}.

(** A raw row with the column [is_reply = parent > 0]. *)
Definition forum_row_of (r : RawForumRow) : ForumRow :=
  {| fp_id := rf_id r;
     fp_userid := rf_userid r;
     fp_username := rf_username r;
     fp_parent := rf_parent r;
     fp_created := rf_created r;
     fp_is_reply := bool_decide (rf_parent r > 0) |}.

(** [MoodleDataPreprocessor.process_forum_data] (src/src/preprocessing.py). *)
Definition process_forum_data (df : list RawForumRow) : list ProcessedForumRow :=
  let df_forum := forum_row_of <$> df in
  (λ p : RawForumRow * option Q,
     {| pf_row := forum_row_of p.1;
        pf_modified := rf_modified p.1;
        pf_post_length := Z.of_nat (String.length (rf_message p.1));
        pf_hours_to_first_reply := p.2 |})
  <$> zip df (_calculate_reply_times df_forum).


(** ** The edge of one reply *)

(** The edge that one turn of the edge loop of
    [analyze_forum_interaction_network] asks for, if any: from the author of
    a reply to the author of the first post that has the parent id
    ([parent_post.iloc[0]]). *)
Definition reply_edge (forum_data : list ForumRow) (row : ForumRow) : option (Z * Z) :=
  if (fp_is_reply row && bool_decide (fp_parent row > 0))%bool then
    match filter (λ p, fp_id p = fp_parent row) forum_data with
    | parent_post :: _ => Some (fp_userid row, fp_userid parent_post)
    | [] => None
    end
  else None.
(** * Verification *)

(** ** Lists *)

Lemma filter_nil_iff {A} (P : A → Prop) `{∀ x, Decision (P x)} (l : list A) :
  filter P l = [] ↔ ∀ x, x ∈ l → ¬ P x.
Proof.
  split.
  - intros Hnil x Hx HP.
    assert (x ∈ filter P l) as Hin by (apply list_elem_of_filter; auto).
    rewrite Hnil in Hin. by apply not_elem_of_nil in Hin.
  - intros Hno. destruct (filter P l) as [|y l'] eqn:E; [done|].
    assert (y ∈ filter P l) as Hin by (rewrite E; left).
    apply list_elem_of_filter in Hin as [HP Hy]. by apply Hno in Hy.
Qed.



Lemma filter_filter_and {A} (P Q : A → Prop) `{∀ x, Decision (P x)} `{∀ x, Decision (Q x)}
  (l : list A) :
  filter Q (filter P l) = filter (λ x, P x ∧ Q x) l.
Proof.
  induction l as [|x l IH]; [done|].
  rewrite !filter_cons.
  destruct (decide (P x)) as [HP|HP].
  - rewrite filter_cons. destruct (decide (Q x)) as [HQ|HQ].
    + rewrite decide_True by auto. by rewrite IH.
    + rewrite decide_False by tauto. done.
  - rewrite decide_False by tauto. done.
Qed.

Lemma remove_dups_head_again {A} `{EqDecision A} (x : A) (l : list A) :
  x ∈ l → remove_dups (x :: l) = remove_dups l.
Proof.
  intros Hin. simpl. destruct (decide_rel elem_of x l); [done | contradiction].
Qed.

(** ** [groupby] *)

Section GroupByFacts.
Context {A K : Type} `{EqDecision K}.
Context (le : relation K) `{∀ x y, Decision (le x y)}.
Context (key : A → K).

Lemma group_keys_NoDup (rows : list A) : NoDup (group_keys le key rows).
Proof.
  unfold group_keys. rewrite merge_sort_Permutation. apply NoDup_remove_dups.
Qed.

Lemma elem_of_group_keys (rows : list A) (k : K) :
  k ∈ group_keys le key rows ↔ ∃ r, r ∈ rows ∧ key r = k.
Proof.
  unfold group_keys. rewrite merge_sort_Permutation, elem_of_remove_dups, list_elem_of_fmap.
  split; [intros (a & -> & ?); eauto | intros (r & ? & <-); eauto].
Qed.

Lemma groupby_keys (rows : list A) : (groupby le key rows).*1 = group_keys le key rows.
Proof.
  unfold groupby. rewrite <- list_fmap_compose. simpl.
  apply list_fmap_id.
Qed.

Lemma elem_of_groupby (rows : list A) (g : K * list A) :
  g ∈ groupby le key rows ↔
  g.2 = group_rows key g.1 rows ∧ ∃ r, r ∈ rows ∧ key r = g.1.
Proof.
  unfold groupby. rewrite list_elem_of_fmap. setoid_rewrite elem_of_group_keys.
  destruct g as [k g]; simpl. split.
  - intros (k' & [= -> ->] & ?). auto.
  - intros [-> ?]. eauto.
Qed.

Lemma groupby_nil : groupby le key [] = [].
Proof. reflexivity. Qed.

Lemma group_rows_nonempty (rows : list A) (k : K) :
  (∃ r, r ∈ rows ∧ key r = k) → group_rows key k rows ≠ [].
Proof.
  intros (r & Hr & Hk) Hnil.
  assert (r ∈ group_rows key k rows) as Hin by (apply list_elem_of_filter; auto).
  rewrite Hnil in Hin. by apply not_elem_of_nil in Hin.
Qed.

End GroupByFacts.

(** ** Action categories *)

Module StringFacts.
Import Strings.
Open Scope string_scope.

Lemma lower_app (a b : string) : lower (a ++ b) = lower a ++ lower b.
Proof. induction a as [|c a IH]; simpl; [done | by rewrite IH]. Qed.

Lemma lower_split (s x y : string) :
  lower s = x ++ y → ∃ s1 s2, s = s1 ++ s2 ∧ lower s1 = x ∧ lower s2 = y.
Proof.
  revert s. induction x as [|c x IH]; intros s Hs.
  - exists "", s. auto.
  - destruct s as [|d s]; simpl in Hs; [discriminate|].
    injection Hs as Hc Hs. apply IH in Hs as (s1 & s2 & -> & <- & <-).
    exists (String d s1), s2. simpl. by rewrite Hc.
Qed.

Lemma prefix_app (sub b : string) : String.prefix sub (sub ++ b) = true.
Proof.
  induction sub as [|c sub IH]; simpl; [by destruct b|].
  destruct (ascii_dec c c); [done | congruence].
Qed.

Lemma prefix_split (sub s : string) :
  String.prefix sub s = true → ∃ b, s = sub ++ b.
Proof.
  revert s. induction sub as [|c sub IH]; intros s Hp.
  - exists s. done.
  - destruct s as [|d s]; simpl in Hp; [discriminate|].
    destruct (ascii_dec c d) as [->|]; [|discriminate].
    apply IH in Hp as [b ->]. by exists b.
Qed.

Lemma str_in_cons (sub : string) (c : ascii) (s : string) :
  str_in sub (String c s) = (String.prefix sub (String c s) || str_in sub s)%bool.
Proof. reflexivity. Qed.

Lemma str_in_nil (sub : string) : str_in sub "" = String.prefix sub "".
Proof. cbn [str_in]. apply orb_false_r. Qed.

Lemma str_in_spec (sub s : string) :
  str_in sub s = true ↔ ∃ a b, s = a ++ sub ++ b.
Proof.
  split.
  - induction s as [|c s IH]; intros Hs.
    + rewrite str_in_nil in Hs. apply prefix_split in Hs as [b Hb]. by exists "", b.
    + rewrite str_in_cons in Hs. apply orb_true_iff in Hs as [Hs|Hs].
      * apply prefix_split in Hs as [b Hb]. by exists "", b.
      * apply IH in Hs as (a & b & ->). by exists (String c a), b.
  - intros (a & b & ->). induction a as [|c a IH].
    + change ("" ++ sub ++ b) with (sub ++ b).
      destruct (sub ++ b) as [|d t] eqn:E.
      * rewrite str_in_nil, <- E. apply prefix_app.
      * rewrite str_in_cons, <- E, prefix_app. done.
    + change (String c a ++ sub ++ b) with (String c (a ++ sub ++ b)).
      rewrite str_in_cons, IH. apply orb_true_r.
Qed.

Lemma str_in_lower_occurs (kw s : string) :
  str_in kw (lower s) = true ↔ occurs_ci kw s.
Proof.
  rewrite str_in_spec. unfold occurs_ci. split.
  - intros (a & b & Hs).
    apply lower_split in Hs as (s1 & s23 & -> & <- & Hs).
    apply lower_split in Hs as (s2 & s3 & -> & <- & <-).
    by exists s1, s2, s3.
  - intros (a & u & b & -> & <-). exists (lower a), (lower b).
    by rewrite !lower_app.
Qed.

Lemma str_in_lower_not_occurs (kw s : string) :
  str_in kw (lower s) = false ↔ ¬ occurs_ci kw s.
Proof.
  rewrite <- str_in_lower_occurs. by destruct (str_in kw (lower s)).
Qed.

End StringFacts.

(** C10.  [categorize_action] is total and tests its keywords in a fixed
    order.  Every action name gets exactly one category.  A name in which
    ["viewed"] occurs (in any letter case) is a [view], whatever else occurs
    in it; without ["viewed"], ["submitted"] decides; then ["created"]
    ([create] in the main module, [submit] in the sample module); then
    ["updated"]; a name with none of the four keywords is [other].  Both
    copies of the function agree on this order. *)
Theorem categorize_action_total_priority (action : string) :
  (∃ c, categorize_action action = c ∧ ∀ c', categorize_action action = c' → c' = c)
  ∧ (Strings.occurs_ci "viewed" action →
       categorize_action action = view ∧ Sample.categorize_action action = view)
  ∧ (¬ Strings.occurs_ci "viewed" action → Strings.occurs_ci "submitted" action →
       categorize_action action = submit ∧ Sample.categorize_action action = submit)
  ∧ (¬ Strings.occurs_ci "viewed" action → ¬ Strings.occurs_ci "submitted" action →
     Strings.occurs_ci "created" action →
       categorize_action action = create ∧ Sample.categorize_action action = submit)
  ∧ (¬ Strings.occurs_ci "viewed" action → ¬ Strings.occurs_ci "submitted" action →
     ¬ Strings.occurs_ci "created" action → Strings.occurs_ci "updated" action →
       categorize_action action = update ∧ Sample.categorize_action action = update)
  ∧ (¬ Strings.occurs_ci "viewed" action → ¬ Strings.occurs_ci "submitted" action →
     ¬ Strings.occurs_ci "created" action → ¬ Strings.occurs_ci "updated" action →
       categorize_action action = other ∧ Sample.categorize_action action = other).
Proof.
  split; [eexists; split; [reflexivity | congruence]|].
  unfold categorize_action, Sample.categorize_action.
  repeat split; intros;
    repeat match goal with
    | H : Strings.occurs_ci _ _ |- _ => apply StringFacts.str_in_lower_occurs in H
    | H : ¬ Strings.occurs_ci _ _ |- _ => apply StringFacts.str_in_lower_not_occurs in H
    end;
    repeat match goal with H : Strings.str_in _ _ = _ |- _ => rewrite H; clear H end;
    try reflexivity.
Qed.

(** ** Engagement metrics *)

Lemma create_engagement_metrics_keys (period : Z) (log_data : list LogRow) :
  eng_key3 <$> create_engagement_metrics_period period log_data
  = group_keys key3_le (log_key period) log_data.
Proof.
  unfold create_engagement_metrics_period.
  rewrite <- (groupby_keys key3_le (log_key period) log_data).
  rewrite <- list_fmap_compose. apply list_fmap_ext.
  intros i [[[u c] b] g] _. reflexivity.
Qed.

(** C6.  [create_engagement_metrics] groups the events by (user, course,
    day): the output has exactly one row per distinct key of the input (no
    key twice, every input key present, no other key); in each row
    [total_actions] counts the events of the key, [submissions] counts those
    of them whose category is [submit], and [active_minutes] is twice
    [total_actions].  Three events of one user in one course on one day, one
    of them a submission, give the single row 3 / 1 / 6. *)
Theorem create_engagement_metrics_one_row_per_key (log_data : list LogRow) :
  let out := create_engagement_metrics log_data in
  NoDup (eng_key3 <$> out)
  ∧ (∀ k, k ∈ (eng_key3 <$> out) ↔ k ∈ (log_key freq_D <$> log_data))
  ∧ (∀ e, e ∈ out →
       eng_total_actions e
       = Z.of_nat (length (filter (λ r, log_key freq_D r = eng_key3 e) log_data))
     ∧ eng_submissions e
       = Z.of_nat (length (filter (λ r, log_key freq_D r = eng_key3 e
                                         ∧ log_action_category r = submit) log_data))
     ∧ eng_active_minutes e = eng_total_actions e * 2)
  ∧ (∀ (u : Z) (c : string) (t1 t2 t3 : Z) (i1 i2 i3 : Z) (a1 a3 : category),
       bucket_start freq_D t1 = bucket_start freq_D t2 →
       bucket_start freq_D t1 = bucket_start freq_D t3 →
       a1 ≠ submit → a3 ≠ submit →
       create_engagement_metrics
         [mkLog i1 u c t1 a1; mkLog i2 u c t2 submit; mkLog i3 u c t3 a3]
       = [mkEngagement u c (bucket_start freq_D t1) 3 1 6]).
Proof.
  intros out. subst out. unfold create_engagement_metrics.
  rewrite create_engagement_metrics_keys.
  split; [apply group_keys_NoDup|].
  split.
  { intros k. rewrite elem_of_group_keys, list_elem_of_fmap.
    split; [intros (r & ? & <-); eauto | intros (r & -> & ?); eauto]. }
  split.
  { intros e He. unfold create_engagement_metrics_period in He.
    apply list_elem_of_fmap in He as ([[[u c] b] g] & -> & Hg).
    apply elem_of_groupby in Hg as [Hg _]. simpl in *. subst g.
    unfold eng_key3, count_submit, group_rows; simpl.
    rewrite filter_filter_and. auto. }
  intros u c t1 t2 t3 i1 i2 i3 a1 a3 H2 H3 Ha1 Ha3.
  unfold create_engagement_metrics_period, groupby, group_keys, group_rows, log_key.
  cbn [fmap list_fmap log_userid log_courseid log_time_created].
  rewrite <- H2, <- H3.
  rewrite !remove_dups_head_again by (repeat constructor).
  change (merge_sort key3_le (remove_dups [(u, c, bucket_start freq_D t1)]))
    with [(u, c, bucket_start freq_D t1)].
  cbn [fmap list_fmap fst snd].
  rewrite !filter_cons, filter_nil.
  rewrite !decide_True by (cbn; congruence).
  unfold count_submit. rewrite !filter_cons, filter_nil. cbn [log_action_category].
  rewrite (decide_False (P := a1 = submit)) by assumption.
  rewrite (decide_False (P := a3 = submit)) by assumption.
  rewrite decide_True by reflexivity.
  reflexivity.
Qed.


(** ** Min-max normalisation *)

Lemma Qmin_cases (x z : Q) : Qmin x z = x ∨ Qmin x z = z.
Proof. unfold Qmin, GenericMinMax.gmin. destruct (x ?= z)%Q; auto. Qed.

Lemma Qmax_cases (x z : Q) : Qmax x z = x ∨ Qmax x z = z.
Proof. unfold Qmax, GenericMinMax.gmax. destruct (x ?= z)%Q; auto. Qed.

Lemma foldl_Qmin_spec (x : Q) (l : list Q) :
  foldl Qmin x l ∈ x :: l ∧ ∀ y, y ∈ x :: l → (foldl Qmin x l <= y)%Q.
Proof.
  revert x. induction l as [|z l IH]; intros x; cbn [foldl].
  - split; [left|]. intros y Hy. apply list_elem_of_singleton in Hy as ->. lra.
  - destruct (IH (Qmin x z)) as [Hin Hle]. split.
    + apply elem_of_cons in Hin as [Hin|Hin]; [|right; right; exact Hin].
      rewrite Hin. destruct (Qmin_cases x z) as [-> | ->]; [left | right; left].
    + intros y Hy.
      assert (foldl Qmin (Qmin x z) l <= Qmin x z)%Q as Hm by (apply Hle; left).
      apply elem_of_cons in Hy as [->|Hy].
      * pose proof (Q.le_min_l x z). lra.
      * apply elem_of_cons in Hy as [->|Hy].
        -- pose proof (Q.le_min_r x z). lra.
        -- apply Hle. by right.
Qed.

Lemma foldl_Qmax_spec (x : Q) (l : list Q) :
  foldl Qmax x l ∈ x :: l ∧ ∀ y, y ∈ x :: l → (y <= foldl Qmax x l)%Q.
Proof.
  revert x. induction l as [|z l IH]; intros x; cbn [foldl].
  - split; [left|]. intros y Hy. apply list_elem_of_singleton in Hy as ->. lra.
  - destruct (IH (Qmax x z)) as [Hin Hle]. split.
    + apply elem_of_cons in Hin as [Hin|Hin]; [|right; right; exact Hin].
      rewrite Hin. destruct (Qmax_cases x z) as [-> | ->]; [left | right; left].
    + intros y Hy.
      assert (Qmax x z <= foldl Qmax (Qmax x z) l)%Q as Hm by (apply Hle; left).
      apply elem_of_cons in Hy as [->|Hy].
      * pose proof (Q.le_max_l x z). lra.
      * apply elem_of_cons in Hy as [->|Hy].
        -- pose proof (Q.le_max_r x z). lra.
        -- apply Hle. by right.
Qed.

Lemma series_min_max_spec (column : list Q) :
  column ≠ [] →
  ∃ m M, series_min column = Fin m ∧ series_max column = Fin M
         ∧ m ∈ column ∧ M ∈ column
         ∧ ∀ y, y ∈ column → (m <= y <= M)%Q.
Proof.
  destruct column as [|x l]; [done|]. intros _.
  destruct (foldl_Qmin_spec x l) as [Hmi Hml].
  destruct (foldl_Qmax_spec x l) as [HMi HMl].
  exists (foldl Qmin x l), (foldl Qmax x l). cbn [series_min series_max].
  repeat split; auto.
Qed.

Lemma normalize_unfold (column : list Q) (m M score : Q) :
  series_min column = Fin m → series_max column = Fin M →
  normalize column score
  = if Qeq_bool (M + - m) 0 then fmul (inf_of_sign (Qsign (score + - m))) (Fin 100)
    else Fin ((score + - m) / (M + - m) * 100).
Proof.
  intros Hm HM. unfold normalize. rewrite Hm, HM. cbn.
  by destruct (Qeq_bool (M + - m) 0).
Qed.

(** All scores equal: the scaling divides zero by zero. *)
Lemma normalize_degenerate (column : list Q) (m M score : Q) :
  series_min column = Fin m → series_max column = Fin M →
  (M == m)%Q → score ∈ column → normalize column score = NaN.
Proof.
  intros Hm HM Heq Hin.
  destruct (series_min_max_spec column) as (m' & M' & Hm' & HM' & _ & _ & Hb).
  { intros ->. by apply not_elem_of_nil in Hin. }
  rewrite Hm in Hm'. rewrite HM in HM'. injection Hm' as <-. injection HM' as <-.
  rewrite (normalize_unfold column m M score Hm HM).
  assert (Qeq_bool (M + - m) 0 = true) as -> by (apply Qeq_bool_iff; lra).
  specialize (Hb score Hin).
  assert (score + - m == 0)%Q as Hz by lra.
  unfold Qsign. apply Qeq_alt in Hz. rewrite Hz. reflexivity.
Qed.

(** A column with two different scores: the scaled values range over
    [0, 100], reaching both ends. *)
Lemma normalize_spread (column : list Q) (m M score : Q) :
  series_min column = Fin m → series_max column = Fin M →
  (m < M)%Q → score ∈ column →
  ∃ q, normalize column score = Fin q ∧ (0 <= q <= 100)%Q
       ∧ ((score == M)%Q → (q == 100)%Q) ∧ ((score == m)%Q → (q == 0)%Q).
Proof.
  intros Hm HM Hlt Hin.
  destruct (series_min_max_spec column) as (m' & M' & Hm' & HM' & _ & _ & Hb).
  { intros ->. by apply not_elem_of_nil in Hin. }
  rewrite Hm in Hm'. rewrite HM in HM'. injection Hm' as <-. injection HM' as <-.
  rewrite (normalize_unfold column m M score Hm HM).
  destruct (Qeq_bool (M + - m) 0) eqn:E.
  { apply Qeq_bool_iff in E. lra. }
  specialize (Hb score Hin).
  eexists. split; [reflexivity|].
  assert (0 < M + - m)%Q as Hpos by lra.
  assert (0 <= (score + - m) / (M + - m) <= 1)%Q as Hr.
  { split.
    - apply Qle_shift_div_l; [done|]. lra.
    - apply Qle_shift_div_r; [done|]. lra. }
  split; [lra|]. split; intros Hs.
  - rewrite Hs. field. lra.
  - rewrite Hs. field. lra.
Qed.

Lemma score_column (engagement_data : list EngagementRow) :
  sc_engagement_score <$> calculate_student_engagement_scores engagement_data
  = raw_score <$> score_groups engagement_data.
Proof.
  unfold calculate_student_engagement_scores. rewrite <- list_fmap_compose.
  apply list_fmap_ext. intros _ g _. reflexivity.
Qed.

Lemma score_normalized (engagement_data : list EngagementRow) (r : ScoreRow) :
  r ∈ calculate_student_engagement_scores engagement_data →
  sc_engagement_score_normalized r
  = normalize (sc_engagement_score <$> calculate_student_engagement_scores engagement_data)
              (sc_engagement_score r).
Proof.
  rewrite score_column. unfold calculate_student_engagement_scores.
  intros Hr. apply list_elem_of_fmap in Hr as (g & -> & _). reflexivity.
Qed.

(** Every row of a table whose scores are all equal gets [NaN]. *)
Lemma constant_scores_normalize_to_nan (engagement_data : list EngagementRow) (r : ScoreRow) :
  r ∈ calculate_student_engagement_scores engagement_data →
  (∀ r', r' ∈ calculate_student_engagement_scores engagement_data →
         (sc_engagement_score r' == sc_engagement_score r)%Q) →
  sc_engagement_score_normalized r = NaN.
Proof.
  intros Hr Hconst. rewrite (score_normalized _ _ Hr).
  set (column := sc_engagement_score <$> calculate_student_engagement_scores engagement_data).
  assert (sc_engagement_score r ∈ column) as Hin by (by apply list_elem_of_fmap_2).
  destruct (series_min_max_spec column) as (m & M & Hm & HM & Hmi & HMi & _).
  { intros E. rewrite E in Hin. by apply not_elem_of_nil in Hin. }
  apply (normalize_degenerate column m M); auto.
  apply list_elem_of_fmap in Hmi as (rm & -> & Hrm).
  apply list_elem_of_fmap in HMi as (rM & -> & HrM).
  rewrite (Hconst _ Hrm), (Hconst _ HrM). reflexivity.
Qed.

(** With two different scores in the table, every normalised score is a
    number of [0, 100]; the largest score maps to 100 and the least to 0. *)
Lemma spread_scores_normalize_in_range (engagement_data : list EngagementRow)
  (lo hi r : ScoreRow) :
  let out := calculate_student_engagement_scores engagement_data in
  lo ∈ out → hi ∈ out → r ∈ out →
  (sc_engagement_score lo < sc_engagement_score hi)%Q →
  fbetween 0 100 (sc_engagement_score_normalized r)
  ∧ ((∀ r', r' ∈ out → (sc_engagement_score r' <= sc_engagement_score r)%Q) →
       feq (sc_engagement_score_normalized r) (Fin 100))
  ∧ ((∀ r', r' ∈ out → (sc_engagement_score r <= sc_engagement_score r')%Q) →
       feq (sc_engagement_score_normalized r) (Fin 0)).
Proof.
  intros out Hlo Hhi Hr Hlt. rewrite (score_normalized _ _ Hr).
  set (column := sc_engagement_score <$> calculate_student_engagement_scores engagement_data).
  assert (∀ x, x ∈ out → sc_engagement_score x ∈ column) as Hcol
    by (intros x Hx; by apply list_elem_of_fmap_2).
  destruct (series_min_max_spec column) as (m & M & Hm & HM & Hmi & HMi & Hb).
  { intros E. specialize (Hcol _ Hr). rewrite E in Hcol. by apply not_elem_of_nil in Hcol. }
  pose proof (Hb _ (Hcol _ Hlo)) as Hblo. pose proof (Hb _ (Hcol _ Hhi)) as Hbhi.
  destruct (normalize_spread column m M (sc_engagement_score r) Hm HM)
    as (q & -> & Hq & Hmax & Hmin); [lra | by apply Hcol|].
  split; [exact Hq|]. split; intros Hext; cbn.
  - apply Hmax. apply list_elem_of_fmap in HMi as (rM & -> & HrM).
    specialize (Hext _ HrM). specialize (Hb _ (Hcol _ Hr)). lra.
  - apply Hmin. apply list_elem_of_fmap in Hmi as (rm & -> & Hrm).
    specialize (Hext _ Hrm). specialize (Hb _ (Hcol _ Hr)). lra.
Qed.

Lemma score_groups_single (e : EngagementRow) :
  score_groups [e] = [(eng_key2 e, [e])].
Proof.
  unfold score_groups, groupby, group_keys, group_rows.
  change (merge_sort key2_le (remove_dups (eng_key2 <$> [e]))) with [eng_key2 e].
  cbn [fmap list_fmap]. rewrite filter_cons, decide_True by reflexivity. done.
Qed.

(** C2.  Min-max normalisation of equal scores.  When all scores of the
    table are equal, [max - min] is zero and the code divides zero by zero:
    every row gets [NaN], not [0].  This holds for every table with a single
    row, and for two students with the same score.  (With two different
    scores the values do range over [0, 100]:
    [spread_scores_normalize_in_range].) *)
Theorem normalization_of_equal_scores_is_nan :
  (∀ e : EngagementRow,
     sc_engagement_score_normalized <$> calculate_student_engagement_scores [e] = [NaN])
  ∧ sc_engagement_score_normalized <$>
      calculate_student_engagement_scores
        [mkEngagement 7 "MATH101" 0 3 1 6; mkEngagement 8 "MATH101" 0 3 1 6]
    = [NaN; NaN].
Proof.
  split; [|vm_compute; reflexivity].
  intros e.
  assert (∃ r, calculate_student_engagement_scores [e] = [r]) as [r Hr].
  { unfold calculate_student_engagement_scores. rewrite score_groups_single.
    cbn [fmap list_fmap]. eauto. }
  rewrite Hr. cbn [fmap list_fmap]. f_equal.
  apply (constant_scores_normalize_to_nan [e]); rewrite Hr.
  - left.
  - intros r' Hr'. apply list_elem_of_singleton in Hr' as ->. reflexivity.
Qed.

(** ** Empty tables *)

(** C9.  Stages on an empty table.  The engagement score builder and the
    risk analysis return the empty table.  The clustering stage does not: the
    empty feature matrix is refused by the scaler, and
    [cluster_students_by_behavior] raises [ValueError] whatever the number of
    clusters. *)
Theorem clustering_raises_on_empty_input :
  calculate_student_engagement_scores [] = []
  ∧ (∀ quiz_df : option (list QuizGradeRow), generate_sample_risk_analysis [] quiz_df = [])
  ∧ (∀ (standardize : list (list Q) → list (list Q))
       (kmeans_labels : nat → list (list Q) → list nat) (n_clusters : nat),
       cluster_students_by_behavior standardize kmeans_labels [] n_clusters
       = Raise ValueError).
Proof.
  split; [reflexivity|]. split; [intros; reflexivity|]. intros; reflexivity.
Qed.

(** ** Percentile ranks and risk tiers *)

Global Instance Qle_transitive : Transitive Qle.
Proof. intros x y z. apply Qle_trans. Qed.

Global Instance Qle_total : Total Qle.
Proof. intros x y. destruct (Qlt_le_dec x y); [left; lra | right; lra]. Qed.

Lemma count_eq_perm (x : Q) (l1 l2 : list Q) :
  l1 ≡ₚ l2 → count_eq x l1 = count_eq x l2.
Proof. intros Hp. unfold count_eq. by rewrite Hp. Qed.

Lemma count_lt_perm (x : Q) (l1 l2 : list Q) :
  l1 ≡ₚ l2 → count_lt x l1 = count_lt x l2.
Proof. intros Hp. unfold count_lt. by rewrite Hp. Qed.

Lemma count_eq_cons (x y : Q) (l : list Q) :
  count_eq x (y :: l) = (if decide (y == x)%Q then 1 else 0) + count_eq x l.
Proof.
  unfold count_eq. rewrite filter_cons. destruct (decide (y == x)%Q); simpl length; lia.
Qed.

Lemma count_lt_cons (x y : Q) (l : list Q) :
  count_lt x (y :: l) = (if decide (y < x)%Q then 1 else 0) + count_lt x l.
Proof.
  unfold count_lt. rewrite filter_cons. destruct (decide (y < x)%Q); simpl length; lia.
Qed.

Lemma count_eq_nonneg (x : Q) (l : list Q) : 0 ≤ count_eq x l.
Proof. unfold count_eq. lia. Qed.

Lemma count_lt_nonneg (x : Q) (l : list Q) : 0 ≤ count_lt x l.
Proof. unfold count_lt. lia. Qed.

Lemma count_lt_eq_le_length (x : Q) (l : list Q) :
  count_lt x l + count_eq x l ≤ Z.of_nat (length l).
Proof.
  induction l as [|y l IH]; [done|].
  rewrite count_eq_cons, count_lt_cons. cbn [length].
  destruct (decide (y == x)%Q), (decide (y < x)%Q); try lia. lra.
Qed.

Lemma count_eq_pos (x : Q) (l : list Q) : x ∈ l → 1 ≤ count_eq x l.
Proof.
  induction l as [|y l IH]; intros Hx; [by apply not_elem_of_nil in Hx|].
  rewrite count_eq_cons. pose proof (count_eq_nonneg x l).
  apply elem_of_cons in Hx as [->|Hx].
  - rewrite decide_True by reflexivity. lia.
  - specialize (IH Hx). destruct (decide (y == x)%Q); lia.
Qed.

Lemma count_zero_above (x : Q) (l : list Q) :
  Forall (λ y, x < y)%Q l → count_eq x l = 0 ∧ count_lt x l = 0.
Proof.
  induction 1 as [|y l Hy _ [IH1 IH2]]; [done|].
  rewrite count_eq_cons, count_lt_cons, IH1, IH2.
  rewrite !decide_False by lra. done.
Qed.

Lemma count_lt_zero_at_least (x : Q) (l : list Q) :
  Forall (λ y, x <= y)%Q l → count_lt x l = 0.
Proof.
  induction 1 as [|y l Hy _ IH]; [done|].
  rewrite count_lt_cons, IH. rewrite decide_False by lra. done.
Qed.

Lemma positions_sum_absent (k : Z) (x : Q) (s : list Q) :
  count_eq x s = 0 → positions_sum k x s = 0.
Proof.
  revert k. induction s as [|y s IH]; intros k; [done|].
  rewrite count_eq_cons. pose proof (count_eq_nonneg x s). cbn [positions_sum].
  destruct (decide (y == x)%Q); [lia|]. intros H0. rewrite IH by lia. lia.
Qed.

(** In a sorted column the entries equal to [x] stand at the consecutive
    positions that follow the entries below [x]. *)
Lemma positions_sum_sorted (k : Z) (x : Q) (s : list Q) :
  StronglySorted Qle s →
  2 * positions_sum k x s
  = count_eq x s * (2 * k + 2 * count_lt x s + count_eq x s - 1).
Proof.
  intros Hs. revert k. induction Hs as [|y s Hs IH Hall]; intros k; [done|].
  cbn [positions_sum]. rewrite count_eq_cons, count_lt_cons.
  destruct (decide (y == x)%Q) as [Heq|Hne].
  - rewrite decide_False by lra.
    assert (count_lt x s = 0) as Hlt0.
    { apply count_lt_zero_at_least. eapply Forall_impl; [exact Hall|].
      intros z Hz. simpl in Hz. lra. }
    specialize (IH (k + 1)). rewrite Hlt0 in IH |- *. nia.
  - destruct (decide (y < x)%Q) as [Hlt|Hge].
    + specialize (IH (k + 1)). nia.
    + destruct (count_zero_above x s) as [He0 Hl0].
      { eapply Forall_impl; [exact Hall|]. intros z Hz. simpl in Hz. lra. }
      rewrite (positions_sum_absent (k + 1) x s He0), He0. lia.
Qed.

Lemma rank_average_counts (column : list Q) (x : Q) :
  x ∈ column →
  (rank_average column x
   == inject_Z (count_lt x column) + (inject_Z (count_eq x column) + 1) / 2)%Q.
Proof.
  intros Hx. unfold rank_average.
  pose proof (positions_sum_sorted 1 x (merge_sort Qle column)
                (StronglySorted_merge_sort Qle column)) as Hps.
  rewrite (count_eq_perm x _ column (merge_sort_Permutation Qle column)) in Hps.
  rewrite (count_lt_perm x _ column (merge_sort_Permutation Qle column)) in Hps.
  pose proof (count_eq_pos x column Hx) as Hpos.
  set (ps := positions_sum 1 x (merge_sort Qle column)) in *.
  set (e := count_eq x column) in *. set (l := count_lt x column) in *.
  assert (inject_Z 2 * inject_Z ps
          == inject_Z e * (inject_Z 2 * inject_Z 1 + inject_Z 2 * inject_Z l + inject_Z e - inject_Z 1))%Q
    as HQ.
  { rewrite <- !inject_Z_mult, <- !inject_Z_plus. unfold Qminus.
    rewrite <- inject_Z_opp, <- inject_Z_plus, <- inject_Z_mult.
    apply inject_Z_injective. lia. }
  change (inject_Z 2) with 2%Q in HQ. change (inject_Z 1) with 1%Q in HQ.
  assert (0 < inject_Z e)%Q as He.
  { change 0%Q with (inject_Z 0). rewrite <- Zlt_Qlt. lia. }
  field_simplify_eq; [|lra]. lra.
Qed.

Lemma rank_pct_bounds (column : list Q) (x : Q) :
  x ∈ column → (0 < rank_pct column x * 100 <= 100)%Q.
Proof.
  intros Hx. unfold rank_pct. rewrite (rank_average_counts column x Hx).
  pose proof (count_eq_pos x column Hx) as He.
  pose proof (count_lt_nonneg x column) as Hl.
  pose proof (count_lt_eq_le_length x column) as Hn.
  set (e := count_eq x column) in *. set (l := count_lt x column) in *.
  set (n := Z.of_nat (length column)) in *. clearbody e l n.
  assert (1 <= inject_Z e)%Q as He' by (change 1%Q with (inject_Z 1); rewrite <- Zle_Qle; lia).
  assert (0 <= inject_Z l)%Q as Hl' by (change 0%Q with (inject_Z 0); rewrite <- Zle_Qle; lia).
  assert (inject_Z l + inject_Z e <= inject_Z n)%Q as Hn'
    by (rewrite <- inject_Z_plus, <- Zle_Qle; lia).
  assert (0 < inject_Z n)%Q as Hpos by lra.
  generalize dependent (inject_Z e). generalize dependent (inject_Z l).
  generalize dependent (inject_Z n). clear. intros qn Hpos ql Hl qe He Hn.
  assert ((qe + 1) / 2 == (qe + 1) * (1 # 2))%Q as -> by (field; lra).
  split.
  - apply Qmult_lt_0_compat; [|reflexivity].
    apply Qlt_shift_div_l; [done|]. lra.
  - assert ((ql + (qe + 1) * (1 # 2)) / qn <= 1)%Q; [|lra].
    apply Qle_shift_div_r; [done|]. lra.
Qed.

(** The four bins of [risk_level_of], edge by edge. *)
Lemma risk_level_of_bins (p : Q) :
  ((0 <= p <= 25)%Q → risk_level_of p = Some HighRisk)
  ∧ ((25 < p <= 50)%Q → risk_level_of p = Some MediumRisk)
  ∧ ((50 < p <= 75)%Q → risk_level_of p = Some LowRisk)
  ∧ ((75 < p <= 100)%Q → risk_level_of p = Some VeryLowRisk)
  ∧ ((p < 0)%Q ∨ (100 < p)%Q → risk_level_of p = None).
Proof.
  unfold risk_level_of, cut, risk_bins, risk_labels.
  cbn [searchsorted_left andb length].
  repeat split; intros H;
    repeat (case_bool_decide || case_decide); try reflexivity; try lra;
    repeat match goal with
           | H : _ ∨ _ |- _ => destruct H
           | H : ¬ (_ ∨ _) |- _ => apply Decidable.not_or in H; destruct H
           end; try lia; try lra; try discriminate.
Qed.

Lemma risk_score_column (engagement_df : list SampleEngagementRow)
  (quiz_df : option (list QuizGradeRow)) :
  rk_engagement_score <$> generate_sample_risk_analysis engagement_df quiz_df
  = (λ g : key2 * list SampleEngagementRow, Qmean (se_engagement_score <$> g.2))
    <$> groupby key2_le se_key2 engagement_df.
Proof.
  unfold generate_sample_risk_analysis. rewrite <- list_fmap_compose.
  apply list_fmap_ext. intros _ g _. reflexivity.
Qed.



(** ** Quiz attempts *)

Lemma attempt_numbers_length (seen : list key2) (rows : list QuizRow) :
  length (attempt_numbers seen rows) = length rows.
Proof.
  revert seen. induction rows as [|r rows IH]; intros seen; simpl; [done|].
  by rewrite IH.
Qed.










(** ** Reply times *)

Lemma nsmallest1_spec (first : ForumRow) (others : list ForumRow) :
  nsmallest1 first others ∈ first :: others
  ∧ ∀ r, r ∈ first :: others → fp_created (nsmallest1 first others) ≤ fp_created r.
Proof.
  revert first. induction others as [|o others IH]; intros first; simpl.
  - split; [left|]. intros r Hr. apply list_elem_of_singleton in Hr as ->. lia.
  - destruct (decide (fp_created o < fp_created first)) as [Hlt|Hge].
    + destruct (IH o) as [Hin Hmin]. split.
      * right. exact Hin.
      * intros r Hr. apply elem_of_cons in Hr as [->|Hr].
        -- specialize (Hmin o (list_elem_of_here _ _)). lia.
        -- by apply Hmin.
    + destruct (IH first) as [Hin Hmin]. split.
      * apply elem_of_cons in Hin as [->|Hin]; [left | right; right; exact Hin].
      * intros r Hr. apply elem_of_cons in Hr as [->|Hr].
        -- apply Hmin. left.
        -- apply elem_of_cons in Hr as [->|Hr].
           ++ specialize (Hmin first (list_elem_of_here _ _)). lia.
           ++ apply Hmin. by right.
Qed.

(** C5.  [_calculate_reply_times] yields one value per post.  For a reply
    ([parent > 0]) whose parent id is the id of a post of the table, the
    value is its own creation time minus that post's, in hours; without such
    a post it is NaN.  For a root post with at least one post naming it as
    parent, the value is the creation time of the earliest of them minus its
    own, in hours; without one it is NaN.  A root created at 0 with one reply
    two hours later gives 2 for both posts. *)
Theorem reply_times_correct (df : list ForumRow) (i : nat) (row : ForumRow)
  (Hrow : df !! i = Some row) :
  length (_calculate_reply_times df) = length df
  ∧ ∃ v, _calculate_reply_times df !! i = Some v
    ∧ (fp_parent row > 0 →
         ((∃ p, p ∈ df ∧ fp_id p = fp_parent row) →
            ∃ p, p ∈ df ∧ fp_id p = fp_parent row
                 ∧ v = Some (hours (fp_created row - fp_created p)))
         ∧ ((∀ p, p ∈ df → fp_id p ≠ fp_parent row) → v = None))
    ∧ (¬ fp_parent row > 0 →
         ((∃ c, c ∈ df ∧ fp_parent c = fp_id row) →
            ∃ c, c ∈ df ∧ fp_parent c = fp_id row
                 ∧ (∀ c', c' ∈ df → fp_parent c' = fp_id row →
                          fp_created c ≤ fp_created c')
                 ∧ v = Some (hours (fp_created c - fp_created row)))
         ∧ ((∀ c, c ∈ df → fp_parent c ≠ fp_id row) → v = None))
    ∧ (∀ (u1 u2 : Z) (n1 n2 : string),
         _calculate_reply_times
           [mkForum 1 u1 n1 0 0 false; mkForum 2 u2 n2 1 7200 true]
         = [Some 2%Q; Some 2%Q]).
Proof.
  unfold _calculate_reply_times.
  split; [apply length_fmap|].
  exists (reply_time df row). split; [by rewrite list_lookup_fmap, Hrow|].
  unfold reply_time. split; [|split].
  - intros Hpar. rewrite decide_True by assumption. split.
    + intros (p & Hp & Hid).
      destruct (filter (λ p, fp_id p = fp_parent row) df) as [|q qs] eqn:E.
      * exfalso. eapply (filter_nil_iff (λ p, fp_id p = fp_parent row)) in E; eauto.
      * assert (q ∈ filter (λ p, fp_id p = fp_parent row) df) as Hq by (rewrite E; left).
        apply list_elem_of_filter in Hq as [Hq1 Hq2]. eauto.
    + intros Hno.
      assert (filter (λ p, fp_id p = fp_parent row) df = []) as ->; [|done].
      apply filter_nil_iff. exact Hno.
  - intros Hroot. rewrite decide_False by assumption. split.
    + intros (c & Hc & Hid).
      destruct (filter (λ p, fp_parent p = fp_id row) df) as [|q qs] eqn:E.
      * exfalso. eapply (filter_nil_iff (λ p, fp_parent p = fp_id row)) in E; eauto.
      * destruct (nsmallest1_spec q qs) as [Hin Hmin]. rewrite <- E in Hin, Hmin.
        apply list_elem_of_filter in Hin as [Hin1 Hin2].
        exists (nsmallest1 q qs). split; [done|]. split; [done|]. split; [|done].
        intros c' Hc' Hid'. apply Hmin. apply list_elem_of_filter. auto.
    + intros Hno.
      assert (filter (λ p, fp_parent p = fp_id row) df = []) as ->; [|done].
      apply filter_nil_iff. exact Hno.
  - intros u1 u2 n1 n2. vm_compute. reflexivity.
Qed.

Lemma reply_times_correct_witness :
  let df := [mkForum 1 7 "ann" 0 0 false; mkForum 2 8 "bob" 1 7200 true] in
  ∃ v p, _calculate_reply_times df !! 1%nat = Some v
         ∧ p ∈ df ∧ fp_id p = 1
         ∧ v = Some (hours (7200 - fp_created p)).
Proof.
  cbn zeta.
  destruct (reply_times_correct
              [mkForum 1 7 "ann" 0 0 false; mkForum 2 8 "bob" 1 7200 true] 1
              (mkForum 2 8 "bob" 1 7200 true) eq_refl)
    as (_ & v & Hv & Hreply & _).
  destruct Hreply as [Hfound _]; [cbn; lia|].
  destruct Hfound as (p & Hp & Hid & Hval).
  { exists (mkForum 1 7 "ann" 0 0 false). split; [left | reflexivity]. }
  exists v, p. auto.
Defined.

(** ** The forum interaction graph *)

Lemma add_node_edges (u : Z) (name : string) (G : DiGraph) :
  edges (add_node u name G) = edges G.
Proof. unfold add_node. by destruct (has_node G u). Qed.

Lemma touch_node_edges (u : Z) (G : DiGraph) : edges (touch_node u G) = edges G.
Proof. unfold touch_node. by destruct (has_node G u). Qed.

Lemma add_edge_edges (u v : Z) (G : DiGraph) :
  edges (add_edge u v G) = edges G ∨ edges (add_edge u v G) = edges G ++ [(u, v)].
Proof.
  unfold add_edge. case_bool_decide; cbn [edges]; rewrite !touch_node_edges; auto.
Qed.

Lemma add_nodes_edges (users : list (Z * string)) (G : DiGraph) :
  edges (foldl (λ G (u : Z * string), add_node u.1 u.2 G) G users) = edges G.
Proof.
  revert G. induction users as [|u users IH]; intros G; [done|].
  simpl. by rewrite IH, add_node_edges.
Qed.

Lemma add_reply_edge_grows (forum_data : list ForumRow) (G : DiGraph) (row : ForumRow) :
  (length (edges (add_reply_edge forum_data G row))
   ≤ length (edges G)
     + (if decide (resolvable_reply forum_data row) then 1 else 0))%nat.
Proof.
  unfold add_reply_edge.
  destruct (fp_is_reply row) eqn:Hr; cbn [andb]; [|lia].
  case_bool_decide as Hp; [|lia].
  destruct (filter (λ p, fp_id p = fp_parent row) forum_data) as [|q qs] eqn:E; [lia|].
  assert (q ∈ filter (λ p, fp_id p = fp_parent row) forum_data) as Hq by (rewrite E; left).
  apply list_elem_of_filter in Hq as [Hq1 Hq2].
  rewrite decide_True by (unfold resolvable_reply; eauto).
  destruct (add_edge_edges (fp_userid row) (fp_userid q) G) as [-> | ->];
    rewrite ?length_app; simpl; lia.
Qed.

Lemma edge_loop_bound (forum_data rows : list ForumRow) (G : DiGraph) :
  (length (edges (foldl (add_reply_edge forum_data) G rows))
   ≤ length (edges G) + length (filter (resolvable_reply forum_data) rows))%nat.
Proof.
  revert G. induction rows as [|row rows IH]; intros G; [simpl; lia|].
  cbn [foldl]. etrans; [apply IH|].
  pose proof (add_reply_edge_grows forum_data G row) as Hg.
  rewrite filter_cons. destruct (decide (resolvable_reply forum_data row)); simpl; lia.
Qed.

(** C3.  The edge loop of [analyze_forum_interaction_network] adds at most
    one edge per reply whose parent resolves, so the edge count is bounded by
    the number of such replies.  It does not compare the two authors: a user
    who replies to their own post gets the edge (7, 7), and the graph has one
    self-loop. *)
Theorem forum_graph_self_loop :
  (∀ forum_data : list ForumRow,
     number_of_edges (forum_graph forum_data)
     ≤ Z.of_nat (length (filter (resolvable_reply forum_data) forum_data)))
  ∧ (let forum_data :=
       [mkForum 1 7 "ann" 0 0 false; mkForum 2 7 "ann" 1 7200 true] in
     edges (forum_graph forum_data) = [(7, 7)]
     ∧ number_of_selfloops (forum_graph forum_data) = 1).
Proof.
  split.
  - intros forum_data. unfold number_of_edges, forum_graph.
    apply inj_le. etrans; [apply edge_loop_bound|].
    rewrite add_nodes_edges. simpl. lia.
  - vm_compute. auto.
Qed.

(** ** Completion rates *)



Lemma elem_of_insert_desc (c x : CourseRow) (sorted : list CourseRow) :
  x ∈ insert_desc c sorted ↔ x = c ∨ x ∈ sorted.
Proof.
  induction sorted as [|d sorted IH]; simpl.
  - rewrite list_elem_of_singleton. rewrite elem_of_nil. tauto.
  - destruct (decide (c_enrolled_users d > c_enrolled_users c)).
    + rewrite !elem_of_cons, IH. tauto.
    + rewrite !elem_of_cons. tauto.
Qed.









(** * Further properties of the pipeline *)

(** ** Sums over groups *)

Lemma Zsum_cons (x : Z) (l : list Z) : Zsum (x :: l) = x + Zsum l.
Proof. reflexivity. Qed.

Lemma Zsum_app (l1 l2 : list Z) : Zsum (l1 ++ l2) = Zsum l1 + Zsum l2.
Proof. induction l1 as [|x l1 IH]; unfold Zsum in *; cbn [foldr app] in *; lia. Qed.

Lemma Zsum_fmap_add {A} (f g : A → Z) (l : list A) :
  Zsum ((λ x, f x + g x) <$> l) = Zsum (f <$> l) + Zsum (g <$> l).
Proof. induction l as [|x l IH]; unfold Zsum in *; cbn [foldr fmap list_fmap] in *; lia. Qed.

Lemma Zsum_ones {A} (l : list A) : Zsum ((λ _, 1) <$> l) = Z.of_nat (length l).
Proof. induction l as [|x l IH]; unfold Zsum in *; cbn [foldr fmap list_fmap length] in *; lia. Qed.

Lemma Zsum_nonneg (l : list Z) : Forall (λ z, 0 ≤ z) l → 0 ≤ Zsum l.
Proof. induction 1; unfold Zsum in *; cbn [foldr] in *; lia. Qed.

Lemma Zsum_indicator {K} `{EqDecision K} (k0 : K) (w : Z) (ks : list K) :
  NoDup ks →
  Zsum ((λ k, if decide (k0 = k) then w else 0) <$> ks)
  = if decide (k0 ∈ ks) then w else 0.
Proof.
  induction 1 as [|k ks Hk Hnd IH]; [done|].
  unfold Zsum in *. cbn [foldr fmap list_fmap] in *. rewrite IH.
  destruct (decide (k0 = k)) as [->|Hne].
  - rewrite (decide_False (P := k ∈ ks)) by done.
    rewrite decide_True by left. lia.
  - destruct (decide (k0 ∈ ks)).
    + rewrite decide_True by (by right). lia.
    + rewrite decide_False; [lia|]. intros Hin. apply elem_of_cons in Hin as [|]; done.
Qed.

(** Summing a weight group by group gives the sum over the whole table. *)
Lemma Zsum_by_group {A K} `{EqDecision K} (key : A → K) (w : A → Z)
  (ks : list K) (rows : list A) :
  NoDup ks → (∀ r, r ∈ rows → key r ∈ ks) →
  Zsum ((λ k, Zsum (w <$> filter (λ r, key r = k) rows)) <$> ks) = Zsum (w <$> rows).
Proof.
  intros Hnd. induction rows as [|r rows IH]; intros Hcov.
  - clear. induction ks as [|k ks IHk]; [done|].
    cbn [fmap list_fmap]. rewrite Zsum_cons, IHk, filter_nil. done.
  - assert (Zsum ((λ k, Zsum (w <$> filter (λ r0, key r0 = k) (r :: rows))) <$> ks)
            = Zsum ((λ k, (if decide (key r = k) then w r else 0)
                          + Zsum (w <$> filter (λ r0, key r0 = k) rows)) <$> ks)) as ->.
    { f_equal. apply list_fmap_ext. intros _ k _. rewrite filter_cons.
      destruct (decide (key r = k)); unfold Zsum; cbn [foldr fmap list_fmap]; lia. }
    rewrite Zsum_fmap_add, IH by (intros r0 Hr0; apply Hcov; by right).
    rewrite (Zsum_indicator (key r) (w r) ks Hnd).
    rewrite decide_True by (apply Hcov; left). unfold Zsum. cbn [foldr fmap list_fmap]. lia.
Qed.

Lemma groupby_Zsum {A K} `{EqDecision K} (le : relation K) `{∀ x y, Decision (le x y)}
  (key : A → K) (w : A → Z) (rows : list A) :
  Zsum ((λ g : K * list A, Zsum (w <$> g.2)) <$> groupby le key rows)
  = Zsum (w <$> rows).
Proof.
  unfold groupby. rewrite <- list_fmap_compose.
  rewrite <- (Zsum_by_group key w (group_keys le key rows) rows).
  - f_equal.
  - apply group_keys_NoDup.
  - intros r Hr. apply elem_of_group_keys. eauto.
Qed.

Lemma count_submit_Zsum (rows : list LogRow) :
  count_submit rows
  = Zsum ((λ r, if decide (log_action_category r = submit) then 1 else 0) <$> rows).
Proof.
  unfold count_submit. induction rows as [|r rows IH]; [done|].
  rewrite filter_cons. unfold Zsum in *. cbn [foldr fmap list_fmap] in *.
  destruct (decide (log_action_category r = submit)); cbn [length]; lia.
Qed.


(** X1.  The daily aggregation loses and invents no event: over the rows of
    [create_engagement_metrics] (for any bucket width) the [total_actions]
    add up to the number of logged events, the [submissions] to the number
    of [submit] events, and the [active_minutes] to twice the number of
    events. *)
Theorem engagement_metrics_conserve_events (period : Z) (log_data : list LogRow) :
  let out := create_engagement_metrics_period period log_data in
  Zsum (eng_total_actions <$> out) = Z.of_nat (length log_data)
  ∧ Zsum (eng_submissions <$> out) = count_submit log_data
  ∧ Zsum (eng_active_minutes <$> out) = 2 * Z.of_nat (length log_data).
Proof.
  intros out. subst out. unfold create_engagement_metrics_period.
  rewrite <- !list_fmap_compose.
  pose proof (groupby_Zsum key3_le (log_key period) (λ _, 1) log_data) as Hcount.
  pose proof (groupby_Zsum key3_le (log_key period)
                (λ r, if decide (log_action_category r = submit) then 1 else 0)
                log_data) as Hsub.
  rewrite Zsum_ones in Hcount. rewrite <- count_submit_Zsum in Hsub.
  assert (Zsum ((λ g : key3 * list LogRow, Z.of_nat (length g.2))
                <$> groupby key3_le (log_key period) log_data)
          = Z.of_nat (length log_data)) as Htotal.
  { rewrite <- Hcount. f_equal. apply list_fmap_ext. intros _ g _. cbn.
    by rewrite Zsum_ones. }
  split; [exact Htotal|]. split.
  - rewrite <- Hsub. f_equal. apply list_fmap_ext. intros _ g _. cbn.
    apply count_submit_Zsum.
  - rewrite <- Htotal.
    generalize (groupby key3_le (log_key period) log_data). intros gs.
    induction gs as [|g gs IH]; [done|].
    unfold Zsum in *. cbn [foldr fmap list_fmap compose eng_active_minutes] in *. lia.
Qed.

(** ** Rows of the engagement tables *)

Lemma length_remove_dups {A} `{EqDecision A} (l : list A) :
  (length (remove_dups l) ≤ length l)%nat.
Proof.
  induction l as [|x l IH]; [done|]. cbn [remove_dups length].
  destruct (decide_rel elem_of x l); cbn [length]; lia.
Qed.

Lemma remove_dups_nonempty {A} `{EqDecision A} (l : list A) :
  l ≠ [] → (1 ≤ length (remove_dups l))%nat.
Proof.
  destruct l as [|x l]; [done|]. intros _.
  assert (x ∈ remove_dups (x :: l)) as Hin by (apply elem_of_remove_dups; left).
  destruct (remove_dups (x :: l)); [by apply not_elem_of_nil in Hin|]. cbn [length]. lia.
Qed.

Lemma group_nonempty_length {A K} `{EqDecision K} (le : relation K)
  `{∀ x y, Decision (le x y)} (key : A → K) (rows : list A) (g : K * list A) :
  g ∈ groupby le key rows → (1 ≤ length g.2)%nat ∧ ∀ r, r ∈ g.2 → r ∈ rows ∧ key r = g.1.
Proof.
  intros Hg. apply elem_of_groupby in Hg as [Hrows Hex]. split.
  - pose proof (group_rows_nonempty key rows g.1 Hex) as Hne. rewrite <- Hrows in Hne.
    destruct g.2; [done|]. cbn [length]. lia.
  - intros r Hr. rewrite Hrows in Hr. unfold group_rows in Hr.
    apply list_elem_of_filter in Hr as [? ?]. done.
Qed.

(** X2.  Every row of [create_sample_engagement_metrics] (for any bucket
    width) stands for at least one event: [total_actions >= 1],
    [0 <= submissions <= total_actions], [1 <= active_days <= total_actions],
    [active_minutes = 2 total_actions], and its [engagement_score] equals
    0.8 total_actions + 0.4 submissions, so it is at least 0.8. *)
Theorem sample_engagement_rows_bounded (period : Z) (logs_df : list LogRow)
  (r : SampleEngagementRow)
  (Hr : r ∈ create_sample_engagement_metrics_period period logs_df) :
  1 ≤ se_total_actions r
  ∧ 0 ≤ se_submissions r ≤ se_total_actions r
  ∧ 1 ≤ se_active_days r ≤ se_total_actions r
  ∧ se_active_minutes r = 2 * se_total_actions r
  ∧ (se_engagement_score r
     == 0.8 * inject_Z (se_total_actions r) + 0.4 * inject_Z (se_submissions r))%Q
  ∧ (0.8 <= se_engagement_score r)%Q.
Proof.
  unfold create_sample_engagement_metrics_period in Hr.
  apply list_elem_of_fmap in Hr as (g & -> & Hg).
  apply group_nonempty_length in Hg as [Hlen _]. cbn.
  set (rows := g.2) in *. clearbody rows.
  assert (0 ≤ count_submit rows ≤ Z.of_nat (length rows)) as Hsub.
  { unfold count_submit.
    pose proof (length_filter (λ r, log_action_category r = submit) rows). lia. }
  assert (1 ≤ nunique (log_time_created <$> rows) ≤ Z.of_nat (length rows)) as Hdays.
  { unfold nunique.
    pose proof (length_remove_dups (log_time_created <$> rows)) as Hle.
    pose proof (remove_dups_nonempty (log_time_created <$> rows)) as Hge.
    rewrite length_fmap in Hle.
    assert (log_time_created <$> rows ≠ []) as Hne by (destruct rows; [cbn in Hlen; lia | done]).
    specialize (Hge Hne). lia. }
  assert (se_score_eq :
    (sample_score_formula (Z.of_nat (length rows)) (count_submit rows)
       (Z.of_nat (length rows) * 2)
     == 0.8 * inject_Z (Z.of_nat (length rows)) + 0.4 * inject_Z (count_submit rows))%Q).
  { unfold sample_score_formula. rewrite inject_Z_mult.
    change (inject_Z 2) with 2%Q. lra. }
  repeat split; try lia; try exact se_score_eq.
  rewrite se_score_eq.
  assert (1 <= inject_Z (Z.of_nat (length rows)))%Q as H1
    by (change 1%Q with (inject_Z 1); rewrite <- Zle_Qle; lia).
  assert (0 <= inject_Z (count_submit rows))%Q as H0
    by (change 0%Q with (inject_Z 0); rewrite <- Zle_Qle; lia).
  lra.
Qed.

Lemma sample_engagement_rows_bounded_witness :
  let logs := [mkLog 1 7 "MATH101" 100 view; mkLog 2 7 "MATH101" 200 submit] in
  ∃ r, create_sample_engagement_metrics logs !! 0%nat = Some r
       ∧ 1 ≤ se_active_days r ≤ se_total_actions r
       ∧ (0.8 <= se_engagement_score r)%Q.
Proof.
  cbn zeta.
  destruct (create_sample_engagement_metrics
              [mkLog 1 7 "MATH101" 100 view; mkLog 2 7 "MATH101" 200 submit] !! 0%nat)
    as [r|] eqn:E; [|vm_compute in E; discriminate].
  exists r. split; [reflexivity|].
  assert (r ∈ create_sample_engagement_metrics_period freq_D
                [mkLog 1 7 "MATH101" 100 view; mkLog 2 7 "MATH101" 200 submit]) as Hr
    by (eapply list_elem_of_lookup_2; exact E).
  destruct (sample_engagement_rows_bounded _ _ r Hr) as (_ & _ & Hdays & _ & _ & Hscore).
  split; [exact Hdays | exact Hscore].
Defined.






(** ** Normalised scores *)

(** X5.  With two different scores in the table, every normalised score of
    [calculate_student_engagement_scores] is a number of [0, 100]; a row with
    the largest score gets 100 and a row with the least score gets 0. *)
Theorem normalized_scores_in_range (engagement_data : list EngagementRow)
  (lo hi r : ScoreRow) :
  let out := calculate_student_engagement_scores engagement_data in
  lo ∈ out → hi ∈ out → r ∈ out →
  (sc_engagement_score lo < sc_engagement_score hi)%Q →
  fbetween 0 100 (sc_engagement_score_normalized r)
  ∧ ((∀ r', r' ∈ out → (sc_engagement_score r' <= sc_engagement_score r)%Q) →
       feq (sc_engagement_score_normalized r) (Fin 100))
  ∧ ((∀ r', r' ∈ out → (sc_engagement_score r <= sc_engagement_score r')%Q) →
       feq (sc_engagement_score_normalized r) (Fin 0)).
Proof. exact (spread_scores_normalize_in_range engagement_data lo hi r). Qed.

Lemma normalized_scores_in_range_witness :
  let data := [mkEngagement 7 "MATH101" 0 3 1 6; mkEngagement 8 "MATH101" 0 1 0 2] in
  ∃ lo hi, calculate_student_engagement_scores data = [hi; lo]
           ∧ fbetween 0 100 (sc_engagement_score_normalized lo)
           ∧ fbetween 0 100 (sc_engagement_score_normalized hi).
Proof.
  cbn zeta.
  set (data := [mkEngagement 7 "MATH101" 0 3 1 6; mkEngagement 8 "MATH101" 0 1 0 2]).
  destruct (calculate_student_engagement_scores data) as [|hi [|lo [|]]] eqn:E;
    try (vm_compute in E; discriminate).
  exists lo, hi. split; [reflexivity|].
  assert (lo ∈ calculate_student_engagement_scores data) as Hlo
    by (rewrite E; right; left).
  assert (hi ∈ calculate_student_engagement_scores data) as Hhi
    by (rewrite E; left).
  assert (sc_engagement_score lo < sc_engagement_score hi)%Q as Hlt.
  { vm_compute in E. injection E as <- <-. vm_compute. reflexivity. }
  split.
  - exact (proj1 (normalized_scores_in_range data lo hi lo Hlo Hhi Hlo Hlt)).
  - exact (proj1 (normalized_scores_in_range data lo hi hi Hlo Hhi Hhi Hlt)).
Defined.

(** X6.  Normalisation keeps the order of the scores.  In a table with two
    different scores, the normalised value of every row is a number, a
    larger score gets a larger normalised value, and equal scores get equal
    ones. *)
Theorem normalization_is_monotone (engagement_data : list EngagementRow)
  (lo hi a b : ScoreRow) :
  let out := calculate_student_engagement_scores engagement_data in
  lo ∈ out → hi ∈ out → a ∈ out → b ∈ out →
  (sc_engagement_score lo < sc_engagement_score hi)%Q →
  ∃ qa qb : Q,
    sc_engagement_score_normalized a = Fin qa
    ∧ sc_engagement_score_normalized b = Fin qb
    ∧ ((sc_engagement_score a < sc_engagement_score b)%Q → (qa < qb)%Q)
    ∧ ((sc_engagement_score a == sc_engagement_score b)%Q → (qa == qb)%Q).
Proof.
  intros out Hlo Hhi Ha Hb Hlt.
  rewrite (score_normalized _ _ Ha), (score_normalized _ _ Hb).
  set (column := sc_engagement_score <$> calculate_student_engagement_scores engagement_data).
  assert (∀ x, x ∈ out → sc_engagement_score x ∈ column) as Hcol
    by (intros x Hx; by apply list_elem_of_fmap_2).
  destruct (series_min_max_spec column) as (m & M & Hm & HM & _ & _ & Hbd).
  { intros E. specialize (Hcol _ Ha). rewrite E in Hcol. by apply not_elem_of_nil in Hcol. }
  pose proof (Hbd _ (Hcol _ Hlo)) as Hblo. pose proof (Hbd _ (Hcol _ Hhi)) as Hbhi.
  rewrite !(normalize_unfold column m M _ Hm HM).
  destruct (Qeq_bool (M + - m) 0) eqn:E.
  { apply Qeq_bool_iff in E. lra. }
  eexists _, _. split; [reflexivity|]. split; [reflexivity|].
  assert (0 < M + - m)%Q as Hpos by lra.
  assert (0 < / (M + - m))%Q as Hinv by (by apply Qinv_lt_0_compat).
  unfold Qdiv. set (k := (/ (M + - m))%Q) in *. clearbody k.
  split; intros Hab.
  - assert (0 < (sc_engagement_score b - sc_engagement_score a) * k)%Q as Hd
      by (apply Qmult_lt_0_compat; lra).
    lra.
  - rewrite Hab. reflexivity.
Qed.

Lemma normalization_is_monotone_witness :
  let data := [mkEngagement 7 "MATH101" 0 3 1 6; mkEngagement 8 "MATH101" 0 1 0 2] in
  ∃ lo hi qa qb,
    calculate_student_engagement_scores data = [hi; lo]
    ∧ sc_engagement_score_normalized lo = Fin qa
    ∧ sc_engagement_score_normalized hi = Fin qb
    ∧ (qa < qb)%Q.
Proof.
  cbn zeta.
  set (data := [mkEngagement 7 "MATH101" 0 3 1 6; mkEngagement 8 "MATH101" 0 1 0 2]).
  destruct (calculate_student_engagement_scores data) as [|hi [|lo [|]]] eqn:E;
    try (vm_compute in E; discriminate).
  assert (lo ∈ calculate_student_engagement_scores data) as Hlo
    by (rewrite E; right; left).
  assert (hi ∈ calculate_student_engagement_scores data) as Hhi
    by (rewrite E; left).
  assert (sc_engagement_score lo < sc_engagement_score hi)%Q as Hlt.
  { vm_compute in E. injection E as <- <-. vm_compute. reflexivity. }
  destruct (normalization_is_monotone data lo hi lo hi Hlo Hhi Hlo Hhi Hlt)
    as (qa & qb & Ha & Hb & Hmono & _).
  exists lo, hi, qa, qb. repeat split; auto.
Defined.

(** ** Percentiles and tiers across the population *)

Lemma count_lt_mono (a b : Q) (l : list Q) :
  (a < b)%Q → count_lt a l + count_eq a l ≤ count_lt b l.
Proof.
  intros Hab. induction l as [|y l IH]; [done|].
  rewrite !count_lt_cons, count_eq_cons.
  destruct (decide (y < a)%Q), (decide (y == a)%Q), (decide (y < b)%Q); try lia; lra.
Qed.

Lemma count_eq_proper (a b : Q) (l : list Q) :
  (a == b)%Q → count_eq a l = count_eq b l ∧ count_lt a l = count_lt b l.
Proof.
  intros Hab. induction l as [|y l [IH1 IH2]]; [done|].
  rewrite !count_lt_cons, !count_eq_cons, IH1, IH2.
  destruct (decide (y < a)%Q), (decide (y == a)%Q), (decide (y < b)%Q),
    (decide (y == b)%Q); try (split; lia); lra.
Qed.


Lemma risk_row_facts (engagement_df : list SampleEngagementRow)
  (quiz_df : option (list QuizGradeRow)) (r : RiskRow) :
  let population :=
    rk_engagement_score <$> generate_sample_risk_analysis engagement_df quiz_df in
  r ∈ generate_sample_risk_analysis engagement_df quiz_df →
  rk_engagement_score r ∈ population
  ∧ (rk_engagement_percentile r
     == (inject_Z (count_lt (rk_engagement_score r) population)
         + (inject_Z (count_eq (rk_engagement_score r) population) + 1) * (1 # 2))
        / inject_Z (Z.of_nat (length population)) * 100)%Q
  ∧ rk_risk_level r = risk_level_of (rk_engagement_percentile r).
Proof.
  intros population Hr.
  assert (rk_engagement_score r ∈ population) as Hin by (by apply list_elem_of_fmap_2).
  split; [exact Hin|].
  assert (rk_engagement_percentile r = (rank_pct population (rk_engagement_score r) * 100)%Q
          ∧ rk_risk_level r = risk_level_of (rk_engagement_percentile r)) as [Hpct Hlevel].
  { subst population. rewrite risk_score_column.
    unfold generate_sample_risk_analysis in Hr.
    apply list_elem_of_fmap in Hr as (g & -> & _). split; reflexivity. }
  split; [|exact Hlevel].
  rewrite Hpct. unfold rank_pct.
  rewrite (rank_average_counts population _ Hin).
  apply Qmult_comp; [|reflexivity]. apply Qmult_comp; [|reflexivity].
  field.
Qed.

Lemma percentile_order (engagement_df : list SampleEngagementRow)
  (quiz_df : option (list QuizGradeRow)) (a b : RiskRow)
  (Ha : a ∈ generate_sample_risk_analysis engagement_df quiz_df)
  (Hb : b ∈ generate_sample_risk_analysis engagement_df quiz_df) :
  ((rk_engagement_score a < rk_engagement_score b)%Q →
     (rk_engagement_percentile a < rk_engagement_percentile b)%Q)
  ∧ ((rk_engagement_score a == rk_engagement_score b)%Q →
     (rk_engagement_percentile a == rk_engagement_percentile b)%Q).
Proof.
  destruct (risk_row_facts engagement_df quiz_df a Ha) as (Hina & Hpa & _).
  destruct (risk_row_facts engagement_df quiz_df b Hb) as (Hinb & Hpb & _).
  set (population :=
         rk_engagement_score <$> generate_sample_risk_analysis engagement_df quiz_df) in *.
  pose proof (count_eq_pos _ _ Hina) as Hea. pose proof (count_eq_pos _ _ Hinb) as Heb.
  pose proof (count_lt_nonneg (rk_engagement_score a) population) as Hla.
  assert (0 < inject_Z (Z.of_nat (length population)))%Q as Hn.
  { change 0%Q with (inject_Z 0). rewrite <- Zlt_Qlt.
    destruct population; [by apply not_elem_of_nil in Hina | cbn [length]; lia]. }
  assert (0 < / inject_Z (Z.of_nat (length population)))%Q as Hinv
    by (by apply Qinv_lt_0_compat).
  rewrite Hpa, Hpb. unfold Qdiv.
  set (k := (/ inject_Z (Z.of_nat (length population)))%Q) in *. clearbody k.
  split; intros Hab.
  - pose proof (count_lt_mono _ _ population Hab) as Hmono.
    set (la := count_lt (rk_engagement_score a) population) in *.
    set (ea := count_eq (rk_engagement_score a) population) in *.
    set (lb := count_lt (rk_engagement_score b) population) in *.
    set (eb := count_eq (rk_engagement_score b) population) in *.
    clearbody la ea lb eb.
    assert (inject_Z la + inject_Z ea <= inject_Z lb)%Q as Hq
      by (rewrite <- inject_Z_plus, <- Zle_Qle; lia).
    assert (1 <= inject_Z ea)%Q as Hqa
      by (change 1%Q with (inject_Z 1); rewrite <- Zle_Qle; lia).
    assert (1 <= inject_Z eb)%Q as Hqb
      by (change 1%Q with (inject_Z 1); rewrite <- Zle_Qle; lia).
    assert (0 < (inject_Z lb + (inject_Z eb + 1) * (1 # 2)
                 - (inject_Z la + (inject_Z ea + 1) * (1 # 2))) * k)%Q as Hd
      by (apply Qmult_lt_0_compat; lra).
    lra.
  - destruct (count_eq_proper _ _ population Hab) as [-> ->]. reflexivity.
Qed.

(** X7.  The percentile follows the score.  For two rows of the risk table,
    a strictly greater engagement score gets a strictly greater
    [engagement_percentile], and equal scores get equal percentiles. *)
Theorem percentile_is_monotone (engagement_df : list SampleEngagementRow)
  (quiz_df : option (list QuizGradeRow)) (a b : RiskRow)
  (Ha : a ∈ generate_sample_risk_analysis engagement_df quiz_df)
  (Hb : b ∈ generate_sample_risk_analysis engagement_df quiz_df) :
  ((rk_engagement_score a < rk_engagement_score b)%Q →
     (rk_engagement_percentile a < rk_engagement_percentile b)%Q)
  ∧ ((rk_engagement_score a == rk_engagement_score b)%Q →
     (rk_engagement_percentile a == rk_engagement_percentile b)%Q).
Proof. exact (percentile_order engagement_df quiz_df a b Ha Hb). Qed.

Lemma percentile_is_monotone_witness :
  let logs := [mkLog 1 7 "MATH101" 100 view; mkLog 2 8 "MATH101" 300 view;
               mkLog 3 7 "MATH101" 90000 submit] in
  ∃ a b,
    generate_sample_risk_analysis (create_sample_engagement_metrics logs) None = [a; b]
    ∧ (rk_engagement_percentile b < rk_engagement_percentile a)%Q.
Proof.
  cbn zeta.
  set (logs := [mkLog 1 7 "MATH101" 100 view; mkLog 2 8 "MATH101" 300 view;
                mkLog 3 7 "MATH101" 90000 submit]).
  destruct (generate_sample_risk_analysis (create_sample_engagement_metrics logs) None)
    as [|a [|b [|]]] eqn:E; try (vm_compute in E; discriminate).
  exists a, b. split; [reflexivity|].
  assert (a ∈ generate_sample_risk_analysis (create_sample_engagement_metrics logs) None)
    as Ha by (rewrite E; left).
  assert (b ∈ generate_sample_risk_analysis (create_sample_engagement_metrics logs) None)
    as Hb by (rewrite E; right; left).
  apply (proj1 (percentile_is_monotone _ _ b a Hb Ha)).
  vm_compute in E. injection E as <- <-. vm_compute. reflexivity.
Defined.

Lemma risk_level_of_monotone (p p' : Q) :
  (0 <= p)%Q → (p <= p')%Q → (p' <= 100)%Q →
  ∃ t t', risk_level_of p = Some t ∧ risk_level_of p' = Some t'
          ∧ tier_rank t ≤ tier_rank t'.
Proof.
  intros H0 Hpp H100.
  destruct (risk_level_of_bins p) as (A1 & A2 & A3 & A4 & _).
  destruct (risk_level_of_bins p') as (B1 & B2 & B3 & B4 & _).
  destruct (Qlt_le_dec 25 p) as [Hp25|Hp25];
    [destruct (Qlt_le_dec 50 p) as [Hp50|Hp50];
     [destruct (Qlt_le_dec 75 p) as [Hp75|Hp75]|]|];
  (destruct (Qlt_le_dec 25 p') as [Hq25|Hq25];
    [destruct (Qlt_le_dec 50 p') as [Hq50|Hq50];
     [destruct (Qlt_le_dec 75 p') as [Hq75|Hq75]|]|]);
  try lra;
  eexists _, _;
  (split; [first [apply A1; lra | apply A2; lra | apply A3; lra | apply A4; lra]|]);
  (split; [first [apply B1; lra | apply B2; lra | apply B3; lra | apply B4; lra]|]);
  cbn; lia.
Qed.

(** X8.  A better score never gets a riskier tier.  For two rows of the
    risk table, both have a tier, and when the score of the first is at most
    the score of the second, the tier of the first is at least as much at
    risk as the tier of the second (High < Medium < Low < Very Low). *)
Theorem risk_tier_is_monotone (engagement_df : list SampleEngagementRow)
  (quiz_df : option (list QuizGradeRow)) (a b : RiskRow)
  (Ha : a ∈ generate_sample_risk_analysis engagement_df quiz_df)
  (Hb : b ∈ generate_sample_risk_analysis engagement_df quiz_df)
  (Hab : (rk_engagement_score a <= rk_engagement_score b)%Q) :
  ∃ ta tb, rk_risk_level a = Some ta ∧ rk_risk_level b = Some tb
           ∧ tier_rank ta ≤ tier_rank tb.
Proof.
  destruct (risk_row_facts engagement_df quiz_df a Ha) as (Hina & _ & ->).
  destruct (risk_row_facts engagement_df quiz_df b Hb) as (Hinb & _ & ->).
  assert (0 < rk_engagement_percentile a <= 100)%Q as Hba.
  { assert (rk_engagement_percentile a
            = (rank_pct (rk_engagement_score <$>
                           generate_sample_risk_analysis engagement_df quiz_df)
                        (rk_engagement_score a) * 100)%Q) as ->.
    { rewrite risk_score_column. unfold generate_sample_risk_analysis in Ha.
      apply list_elem_of_fmap in Ha as (g & -> & _). reflexivity. }
    by apply rank_pct_bounds. }
  assert (0 < rk_engagement_percentile b <= 100)%Q as Hbb.
  { assert (rk_engagement_percentile b
            = (rank_pct (rk_engagement_score <$>
                           generate_sample_risk_analysis engagement_df quiz_df)
                        (rk_engagement_score b) * 100)%Q) as ->.
    { rewrite risk_score_column. unfold generate_sample_risk_analysis in Hb.
      apply list_elem_of_fmap in Hb as (g & -> & _). reflexivity. }
    by apply rank_pct_bounds. }
  assert (rk_engagement_percentile a <= rk_engagement_percentile b)%Q as Hle.
  { destruct (percentile_order engagement_df quiz_df a b Ha Hb) as [Hlt Heq].
    destruct (Qlt_le_dec (rk_engagement_score a) (rk_engagement_score b)) as [H|H].
    - specialize (Hlt H). lra.
    - assert (rk_engagement_score a == rk_engagement_score b)%Q as He by lra.
      specialize (Heq He). lra. }
  apply risk_level_of_monotone; lra.
Qed.

Lemma risk_tier_is_monotone_witness :
  let logs := [mkLog 1 7 "MATH101" 100 view; mkLog 2 8 "MATH101" 300 view;
               mkLog 3 7 "MATH101" 90000 submit] in
  ∃ a b ta tb,
    generate_sample_risk_analysis (create_sample_engagement_metrics logs) None = [a; b]
    ∧ rk_risk_level b = Some tb ∧ rk_risk_level a = Some ta
    ∧ tier_rank tb ≤ tier_rank ta.
Proof.
  cbn zeta.
  set (logs := [mkLog 1 7 "MATH101" 100 view; mkLog 2 8 "MATH101" 300 view;
                mkLog 3 7 "MATH101" 90000 submit]).
  destruct (generate_sample_risk_analysis (create_sample_engagement_metrics logs) None)
    as [|a [|b [|]]] eqn:E; try (vm_compute in E; discriminate).
  assert (a ∈ generate_sample_risk_analysis (create_sample_engagement_metrics logs) None)
    as Ha by (rewrite E; left).
  assert (b ∈ generate_sample_risk_analysis (create_sample_engagement_metrics logs) None)
    as Hb by (rewrite E; right; left).
  assert (rk_engagement_score b <= rk_engagement_score a)%Q as Hle.
  { vm_compute in E. injection E as <- <-. vm_compute. discriminate. }
  destruct (risk_tier_is_monotone _ _ b a Hb Ha Hle) as (tb & ta & Htb & Hta & Hrank).
  exists a, b, ta, tb. auto.
Defined.





(** ** Students at risk *)

Lemma at_risk_cut (q : Q) :
  ((q <= 0)%Q → cut at_risk_bins at_risk_labels false q = None)
  ∧ ((0 < q <= 15)%Q → cut at_risk_bins at_risk_labels false q = Some HighRisk)
  ∧ ((15 < q <= 30)%Q → cut at_risk_bins at_risk_labels false q = Some MediumRisk)
  ∧ ((30 < q <= 100)%Q → cut at_risk_bins at_risk_labels false q = Some LowRisk)
  ∧ ((100 < q)%Q → cut at_risk_bins at_risk_labels false q = None).
Proof.
  unfold cut, at_risk_bins, at_risk_labels.
  cbn [searchsorted_left andb length].
  repeat split; intros H;
    repeat (case_bool_decide || case_decide); try reflexivity; try lra;
    repeat match goal with
           | H : _ ∨ _ |- _ => destruct H
           | H : ¬ (_ ∨ _) |- _ => apply Decidable.not_or in H; destruct H
           end; try lia; try lra; try discriminate.
Qed.

Lemma elem_of_identify_at_risk (engagement_scores : list ScoreRow)
  (quiz_grades : option (list GradeRow)) (threshold : Q) (a : AtRiskRow) :
  a ∈ identify_at_risk_students engagement_scores quiz_grades threshold →
  ar_score a ∈ engagement_scores
  ∧ flt (sc_engagement_score_normalized (ar_score a)) threshold = true
  ∧ ar_risk_level a
    = cut_fnum at_risk_bins at_risk_labels false
        (sc_engagement_score_normalized (ar_score a))
  ∧ match quiz_grades with
    | None => ar_grade a = None
    | Some grades =>
        ∃ g, g ∈ merge_grades grades (ar_score a)
             ∧ ar_grade a = Some (g, grade_based_risk g)
    end.
Proof.
  unfold identify_at_risk_students. destruct quiz_grades as [grades|]; intros Ha.
  - apply list_elem_of_bind in Ha as (s & Ha & Hs).
    apply list_elem_of_fmap in Ha as (g & -> & Hg).
    apply list_elem_of_filter in Hs as [Hflt Hs]. cbn. eauto 6.
  - apply list_elem_of_fmap in Ha as (s & -> & Hs).
    apply list_elem_of_filter in Hs as [Hflt Hs]. cbn. auto.
Qed.

Lemma at_risk_selection_facts (engagement_scores : list ScoreRow)
  (quiz_grades : option (list GradeRow)) (threshold : Q) :
  let out := identify_at_risk_students engagement_scores quiz_grades threshold in
  (∀ a, a ∈ out →
     ar_score a ∈ engagement_scores
     ∧ sc_engagement_score_normalized (ar_score a) ≠ NaN
     ∧ ∀ q, sc_engagement_score_normalized (ar_score a) = Fin q →
         (q < threshold)%Q
         ∧ ((q <= 0)%Q → ar_risk_level a = None)
         ∧ ((0 < q <= 15)%Q → ar_risk_level a = Some HighRisk)
         ∧ ((15 < q <= 30)%Q → ar_risk_level a = Some MediumRisk)
         ∧ ((30 < q <= 100)%Q → ar_risk_level a = Some LowRisk)
         ∧ ((threshold <= 30)%Q → ar_risk_level a ≠ Some LowRisk))
  ∧ (∀ s q, s ∈ engagement_scores →
       sc_engagement_score_normalized s = Fin q → (q < threshold)%Q →
       ∃ a, a ∈ out ∧ ar_score a = s).
Proof.
  intros out. split.
  - intros a Ha. apply elem_of_identify_at_risk in Ha as (Hin & Hflt & Hlevel & _).
    split; [exact Hin|]. split.
    { intros E. rewrite E in Hflt. discriminate. }
    intros q Hq. rewrite Hq in Hflt, Hlevel. cbn in Hflt, Hlevel.
    apply bool_decide_eq_true in Hflt.
    destruct (at_risk_cut q) as (C0 & C1 & C2 & C3 & _).
    rewrite Hlevel. repeat split; auto.
    intros Ht Hlow.
    destruct (Qlt_le_dec 0 q) as [H0|H0]; [|rewrite C0 in Hlow by lra; discriminate].
    destruct (Qlt_le_dec 15 q) as [H15|H15]; [|rewrite C1 in Hlow by lra; discriminate].
    rewrite C2 in Hlow by lra. discriminate.
  - intros s q Hs Hq Hlt. subst out. unfold identify_at_risk_students.
    assert (s ∈ filter (λ s, flt (sc_engagement_score_normalized s) threshold = true)
                  engagement_scores) as Hsel.
    { apply list_elem_of_filter. split; [|exact Hs]. rewrite Hq. cbn.
      by apply bool_decide_eq_true. }
    destruct quiz_grades as [grades|].
    + assert (∃ g, g ∈ merge_grades grades s) as [g Hg].
      { unfold merge_grades.
        destruct (filter _ grades) as [|g0 gs]; [exists NaN; left|].
        exists (gr_final_grade g0). cbn [fmap list_fmap]. left. }
      eexists. split.
      * apply list_elem_of_bind. exists s. split; [|exact Hsel].
        apply list_elem_of_fmap. exists g. split; [reflexivity | exact Hg].
      * reflexivity.
    + eexists. split; [apply list_elem_of_fmap; exists s; split; [reflexivity|exact Hsel]|].
      reflexivity.
Qed.

(** X10.  Who is flagged, and how.  Every row returned by
    [identify_at_risk_students] is a row of the score table whose normalised
    score is below the threshold: a row whose normalised score is NaN is
    never flagged.  Its [risk_level] is High Risk for a score in (0, 15],
    Medium Risk in (15, 30], Low Risk in (30, 100], and no label at all for a
    score of 0 or less; and with a threshold of at most 30 (the default) the
    label Low Risk is never given.  Conversely, every row of the score table
    whose normalised score is a number below the threshold is returned. *)
Theorem at_risk_selection (engagement_scores : list ScoreRow)
  (quiz_grades : option (list GradeRow)) (threshold : Q) :
  let out := identify_at_risk_students engagement_scores quiz_grades threshold in
  (∀ a, a ∈ out →
     ar_score a ∈ engagement_scores
     ∧ sc_engagement_score_normalized (ar_score a) ≠ NaN
     ∧ ∀ q, sc_engagement_score_normalized (ar_score a) = Fin q →
         (q < threshold)%Q
         ∧ ((q <= 0)%Q → ar_risk_level a = None)
         ∧ ((0 < q <= 15)%Q → ar_risk_level a = Some HighRisk)
         ∧ ((15 < q <= 30)%Q → ar_risk_level a = Some MediumRisk)
         ∧ ((30 < q <= 100)%Q → ar_risk_level a = Some LowRisk)
         ∧ ((threshold <= 30)%Q → ar_risk_level a ≠ Some LowRisk))
  ∧ (∀ s q, s ∈ engagement_scores →
       sc_engagement_score_normalized s = Fin q → (q < threshold)%Q →
       ∃ a, a ∈ out ∧ ar_score a = s).
Proof. exact (at_risk_selection_facts engagement_scores quiz_grades threshold). Qed.

(** X11.  Flagging after normalisation.  On the scores of
    [calculate_student_engagement_scores]: when all scores are equal (as in
    a table with one student) nobody is flagged, whatever the threshold;
    and when two scores differ and the threshold is positive, a student with
    the least score is flagged but gets no [risk_level] (the normalised score
    0 lies outside the left-open first bin). *)
Theorem least_engaged_student_is_unlabelled (engagement_data : list EngagementRow)
  (quiz_grades : option (list GradeRow)) (threshold : Q) :
  let scores := calculate_student_engagement_scores engagement_data in
  ((∀ r r', r ∈ scores → r' ∈ scores →
            (sc_engagement_score r' == sc_engagement_score r)%Q) →
   identify_at_risk_students scores quiz_grades threshold = [])
  ∧ (∀ lo hi,
       lo ∈ scores → hi ∈ scores →
       (sc_engagement_score lo < sc_engagement_score hi)%Q →
       (∀ r, r ∈ scores → (sc_engagement_score lo <= sc_engagement_score r)%Q) →
       (0 < threshold)%Q →
       (∃ a, a ∈ identify_at_risk_students scores quiz_grades threshold
             ∧ ar_score a = lo)
       ∧ ∀ a, a ∈ identify_at_risk_students scores quiz_grades threshold →
              ar_score a = lo → ar_risk_level a = None).
Proof.
  intros scores. split.
  - intros Hconst.
    assert (filter (λ s, flt (sc_engagement_score_normalized s) threshold = true) scores
            = []) as Hnil.
    { apply filter_nil_iff. intros r Hr.
      rewrite (constant_scores_normalize_to_nan engagement_data r Hr); [discriminate|].
      intros r' Hr'. by apply Hconst. }
    unfold identify_at_risk_students. rewrite Hnil. by destruct quiz_grades.
  - intros lo hi Hlo Hhi Hlt Hmin Ht.
    destruct (spread_scores_normalize_in_range engagement_data lo hi lo Hlo Hhi Hlo Hlt)
      as (_ & _ & Hzero).
    specialize (Hzero Hmin).
    destruct (sc_engagement_score_normalized lo) as [q| | |] eqn:Eq; try done.
    cbn in Hzero.
    destruct (at_risk_selection_facts scores quiz_grades threshold) as [Hsound Hcomplete].
    split.
    + apply (Hcomplete lo q Hlo Eq). lra.
    + intros a Ha Halo. destruct (Hsound a Ha) as (_ & _ & Hq).
      rewrite Halo in Hq. destruct (Hq q Eq) as (_ & Hnone & _). apply Hnone. lra.
Qed.



(** ** Cleaning of the raw logs *)

Module SplitFacts.
Import Split.
Open Scope string_scope.

Lemma split_no_sep (sep : ascii) (s : string) :
  has_char sep s = false → split sep s = [s].
Proof.
  induction s as [|c s IH]; [done|]. cbn [has_char split].
  intros H. apply orb_false_iff in H as [Hc Hs].
  apply bool_decide_eq_false in Hc. rewrite decide_False by done.
  by rewrite (IH Hs).
Qed.

Lemma split_with_sep (sep : ascii) (s : string) :
  has_char sep s = true → ∃ p q qs, split sep s = p :: q :: qs.
Proof.
  induction s as [|c s IH]; [done|]. cbn [has_char split]. intros H.
  destruct (decide (c = sep)) as [->|Hne].
  - destruct (split sep s) as [|q qs] eqn:E.
    + destruct s; cbn in E; [discriminate|].
      destruct (decide (a = sep)); [discriminate|]. by destruct (split sep s).
    + eauto.
  - apply orb_true_iff in H as [H|H]; [by apply bool_decide_eq_true in H|].
    destruct (IH H) as (p & q & qs & ->). eauto.
Qed.

Lemma has_char_app (sep : ascii) (a b : string) :
  has_char sep (a ++ b) = (has_char sep a || has_char sep b)%bool.
Proof.
  induction a as [|c a IH]; [done|].
  change (String c a ++ b) with (String c (a ++ b)). cbn [has_char]. rewrite IH.
  by rewrite orb_assoc.
Qed.

Lemma last_piece_two (p q : string) (qs : list string) :
  last_piece (p :: q :: qs) = last_piece (q :: qs).
Proof. reflexivity. Qed.

Lemma last_piece_after_sep (sep : ascii) (pre a : string) :
  has_char sep a = false →
  last_piece (split sep (pre ++ String sep a)) = a.
Proof.
  intros Ha. induction pre as [|c pre IH].
  - change ("" ++ String sep a) with (String sep a). cbn [split].
    rewrite decide_True by done. by rewrite (split_no_sep sep a Ha).
  - change (String c pre ++ String sep a) with (String c (pre ++ String sep a)).
    assert (has_char sep (pre ++ String sep a) = true) as Hhas.
    { rewrite has_char_app. cbn [has_char].
      rewrite bool_decide_eq_true_2 by done. apply orb_true_r. }
    destruct (split_with_sep sep _ Hhas) as (p & q & qs & E).
    cbn [split]. rewrite E in IH |- *.
    destruct (decide (c = sep)); rewrite !last_piece_two in *; exact IH.
Qed.

(** A string with the separator splits at its last occurrence. *)
Lemma last_sep_split (sep : ascii) (s : string) :
  has_char sep s = true →
  ∃ pre a, s = pre ++ String sep a ∧ has_char sep a = false.
Proof.
  induction s as [|c s IH]; [done|]. cbn [has_char]. intros H.
  destruct (has_char sep s) eqn:Hs.
  - destruct (IH eq_refl) as (pre & a & -> & Ha). by exists (String c pre), a.
  - rewrite orb_false_r in H. apply bool_decide_eq_true in H as ->.
    by exists "", s.
Qed.

End SplitFacts.

(** X13.  The action type is the last segment of the event name.  For an
    event name without a backslash the action type is the name itself; for a
    name [pre\a], where [a] has no backslash, it is [a], whatever stands
    before the last backslash; every event name is of one of these two
    forms, so an action type never contains a backslash.  The category of a
    cleaned row is the category of that last segment alone. *)
Theorem action_type_is_last_segment (eventname : string) :
  (Split.has_char Split.backslash eventname = false →
     action_type_of eventname = eventname)
  ∧ (∀ pre a : string,
       Split.has_char Split.backslash a = false →
       eventname = (pre ++ String Split.backslash a)%string →
       action_type_of eventname = a)
  ∧ Split.has_char Split.backslash (action_type_of eventname) = false
  ∧ (∃ pre : string,
       eventname = (pre ++ action_type_of eventname)%string
       ∧ (pre = EmptyString
          ∨ ∃ pre', pre = (pre' ++ String Split.backslash EmptyString)%string))
  ∧ (∀ df c, c ∈ clean_log_data df →
       cl_action_type c = action_type_of (raw_eventname (cl_raw c))
       ∧ cl_action_category c = categorize_action (cl_action_type c)).
Proof.
  assert (∀ pre a : string,
            Split.has_char Split.backslash a = false →
            action_type_of (pre ++ String Split.backslash a) = a) as Hlast.
  { intros pre a Ha. unfold action_type_of.
    rewrite SplitFacts.has_char_app. cbn [Split.has_char].
    rewrite bool_decide_eq_true_2 by done. rewrite orb_true_r.
    by apply SplitFacts.last_piece_after_sep. }
  split; [|split; [|split; [|split]]].
  - intros H. unfold action_type_of. by rewrite H.
  - intros pre a Ha ->. by apply Hlast.
  - destruct (Split.has_char Split.backslash eventname) eqn:E.
    + destruct (SplitFacts.last_sep_split _ _ E) as (pre & a & -> & Ha).
      by rewrite Hlast.
    + unfold action_type_of. by rewrite E.
  - destruct (Split.has_char Split.backslash eventname) eqn:E.
    + destruct (SplitFacts.last_sep_split _ _ E) as (pre & a & -> & Ha).
      rewrite Hlast by done.
      exists (pre ++ String Split.backslash EmptyString)%string. split.
      * clear. induction pre as [|c pre IH]; [done|].
        change (String c pre ++ String Split.backslash a)%string
          with (String c (pre ++ String Split.backslash a))%string.
        rewrite IH. reflexivity.
      * right. by exists pre.
    + exists EmptyString. split; [|by left]. unfold action_type_of. by rewrite E.
  - intros df c Hc. unfold clean_log_data in Hc.
    apply list_elem_of_fmap in Hc as (r & -> & _). split; reflexivity.
Qed.

Lemma day_name_in_week (t : Z) : day_name_of t ∈ day_names.
Proof.
  unfold day_name_of.
  pose proof (Z.mod_pos_bound (date_of t) 7 ltac:(lia)) as Hb.
  destruct (day_names !! Z.to_nat (date_of t mod 7)) as [d|] eqn:E.
  - cbn [default]. eapply list_elem_of_lookup_2. exact E.
  - apply lookup_ge_None in E. cbn [day_names length] in E. lia.
Qed.

(** X14.  The time columns of [clean_log_data].  Cleaning keeps the rows in
    order.  For every cleaned row, [hour] is in 0..23, [date] is the day that
    contains the timestamp, [day_of_week] is one of the seven day names and
    repeats every 7 days, and the daily bucket of the aggregation starts at
    the midnight of [date]: two cleaned events fall in the same row of
    [create_engagement_metrics] exactly when user, course and date agree. *)
Theorem clean_log_time_columns (df : list RawLogRow) :
  cl_raw <$> clean_log_data df = df
  ∧ (∀ c, c ∈ clean_log_data df →
       0 ≤ cl_hour c ≤ 23
       ∧ cl_date c * 86400 ≤ cl_time_created c < (cl_date c + 1) * 86400
       ∧ cl_time_created c = cl_date c * 86400 + cl_hour c * 3600
                             + cl_time_created c mod 3600
       ∧ cl_day_of_week c ∈ day_names
       ∧ cl_day_of_week c = day_name_of (cl_time_created c + 7 * 86400)
       ∧ bucket_start freq_D (cl_time_created c) = cl_date c * 86400)
  ∧ (∀ c1 c2, c1 ∈ clean_log_data df → c2 ∈ clean_log_data df →
       (log_key freq_D (log_of_clean c1) = log_key freq_D (log_of_clean c2)
        ↔ raw_userid (cl_raw c1) = raw_userid (cl_raw c2)
          ∧ raw_courseid (cl_raw c1) = raw_courseid (cl_raw c2)
          ∧ cl_date c1 = cl_date c2)).
Proof.
  assert (∀ c, c ∈ clean_log_data df →
            cl_time_created c = raw_timecreated (cl_raw c)
            ∧ cl_hour c = hour_of (raw_timecreated (cl_raw c))
            ∧ cl_date c = date_of (raw_timecreated (cl_raw c))
            ∧ cl_day_of_week c = day_name_of (raw_timecreated (cl_raw c))) as Hcols.
  { intros c Hc. unfold clean_log_data in Hc.
    apply list_elem_of_fmap in Hc as (r & -> & _). repeat split. }
  split; [|split].
  - unfold clean_log_data. rewrite <- list_fmap_compose. apply list_fmap_id.
  - intros c Hc. destruct (Hcols c Hc) as (-> & -> & -> & ->).
    set (t := raw_timecreated (cl_raw c)). clearbody t.
    unfold hour_of, date_of, bucket_start, freq_D, seconds_per_day.
    pose proof (Z.div_mod t 86400 ltac:(lia)) as Hdm.
    pose proof (Z.mod_pos_bound t 86400 ltac:(lia)) as Hmb.
    pose proof (Z.div_mod (t mod 86400) 3600 ltac:(lia)) as Hdm2.
    pose proof (Z.mod_pos_bound (t mod 86400) 3600 ltac:(lia)) as Hmb2.
    assert ((t mod 86400) mod 3600 = t mod 3600) as Hmm.
    { replace (t mod 86400) with (t + (- 24 * (t / 86400)) * 3600) by lia.
      apply Z.mod_add. lia. }
    assert (0 ≤ t mod 86400 / 3600 ≤ 23) as Hh.
    { split; [apply Z.div_pos; lia|].
      apply Z.lt_succ_r. apply Z.div_lt_upper_bound; lia. }
    split; [exact Hh|]. split; [lia|]. split; [lia|].
    split; [apply day_name_in_week|]. split; [|lia].
    unfold day_name_of, date_of, seconds_per_day. do 3 f_equal.
    replace (t + 7 * 86400) with (t + 7 * 86400) by lia.
    rewrite Z.div_add by lia.
    rewrite <- (Z.mod_add (t / 86400) 1 7) by lia. f_equal.
  - intros c1 c2 Hc1 Hc2.
    destruct (Hcols c1 Hc1) as (Ht1 & _ & Hd1 & _).
    destruct (Hcols c2 Hc2) as (Ht2 & _ & Hd2 & _).
    unfold log_key, log_of_clean. cbn. rewrite Ht1, Ht2, Hd1, Hd2.
    unfold bucket_start, freq_D, date_of, seconds_per_day. split.
    + intros [= Hu Hc Hb]. repeat split; auto. lia.
    + intros (-> & -> & ->). reflexivity.
Qed.

(** ** Quiz attempts, further *)

Lemma zip_fst_length {A B} (l : list A) (k : list B) :
  length l = length k → (zip l k).*1 = l.
Proof.
  revert k. induction l as [|x l IH]; intros [|y k] Hlen; try done.
  cbn. f_equal. apply IH. by injection Hlen.
Qed.

(** X15.  [process_quiz_data] keeps every attempt, in the order of the input
    table, and its [duration_minutes] is (finish - start) / 60 without any
    clamping: it is negative exactly when the attempt finishes before it
    starts, and zero exactly when both times are equal. *)
Theorem process_quiz_keeps_rows (df : list QuizRow) :
  qo_row <$> process_quiz_data df = df
  ∧ ∀ o, o ∈ process_quiz_data df →
      (qo_duration_minutes o * 60
       == inject_Z (qz_timefinish (qo_row o) - qz_timestart (qo_row o)))%Q
      ∧ ((qo_duration_minutes o < 0)%Q
         ↔ qz_timefinish (qo_row o) < qz_timestart (qo_row o))
      ∧ ((qo_duration_minutes o == 0)%Q
         ↔ qz_timefinish (qo_row o) = qz_timestart (qo_row o)).
Proof.
  split.
  - unfold process_quiz_data. rewrite <- list_fmap_compose.
    apply (zip_fst_length df (attempt_numbers [] df)).
    by rewrite attempt_numbers_length.
  - intros o Ho. unfold process_quiz_data in Ho.
    apply list_elem_of_fmap in Ho as (p & -> & _). cbn.
    set (d := qz_timefinish p.1 - qz_timestart p.1).
    assert (inject_Z d / 60 * 60 == inject_Z d)%Q as Hd by (field; lra).
    split; [exact Hd|].
    assert (qz_timefinish p.1 < qz_timestart p.1 ↔ d < 0) as -> by (subst d; lia).
    assert (qz_timefinish p.1 = qz_timestart p.1 ↔ d = 0) as -> by (subst d; lia).
    clearbody d.
    assert ((inject_Z d < 0)%Q ↔ d < 0) as H1
      by (change 0%Q with (inject_Z 0); by rewrite <- Zlt_Qlt).
    assert ((inject_Z d == 0)%Q ↔ d = 0) as H2
      by (change 0%Q with (inject_Z 0); apply inject_Z_injective).
    rewrite <- H1, <- H2. split; split; intros H; lra.
Qed.

Lemma list_min_spec (x : Z) (l : list Z) :
  list_min (x :: l) ∈ x :: l ∧ ∀ y, y ∈ x :: l → list_min (x :: l) ≤ y.
Proof.
  cbn [list_min]. revert x. induction l as [|z l IH]; intros x; cbn [foldl].
  - split; [left|]. intros y Hy. apply list_elem_of_singleton in Hy as ->. lia.
  - destruct (IH (Z.min x z)) as [Hin Hle]. split.
    + apply elem_of_cons in Hin as [Hin|Hin]; [|right; right; exact Hin].
      rewrite Hin. destruct (Z.min_spec x z) as [[_ ->]|[_ ->]]; [left | right; left].
    + intros y Hy.
      assert (foldl Z.min (Z.min x z) l ≤ Z.min x z) as Hm by (apply Hle; left).
      apply elem_of_cons in Hy as [->|Hy]; [lia|].
      apply elem_of_cons in Hy as [->|Hy]; [lia|]. apply Hle. by right.
Qed.

Lemma list_max_spec (x : Z) (l : list Z) :
  list_max (x :: l) ∈ x :: l ∧ ∀ y, y ∈ x :: l → y ≤ list_max (x :: l).
Proof.
  cbn [list_max]. revert x. induction l as [|z l IH]; intros x; cbn [foldl].
  - split; [left|]. intros y Hy. apply list_elem_of_singleton in Hy as ->. lia.
  - destruct (IH (Z.max x z)) as [Hin Hle]. split.
    + apply elem_of_cons in Hin as [Hin|Hin]; [|right; right; exact Hin].
      rewrite Hin. destruct (Z.max_spec x z) as [[_ ->]|[_ ->]]; [right; left | left].
    + intros y Hy.
      assert (Z.max x z ≤ foldl Z.max (Z.max x z) l) as Hm by (apply Hle; left).
      apply elem_of_cons in Hy as [->|Hy]; [lia|].
      apply elem_of_cons in Hy as [->|Hy]; [lia|]. apply Hle. by right.
Qed.

Lemma list_min_max_nonempty (l : list Z) :
  l ≠ [] →
  list_min l ∈ l ∧ list_max l ∈ l ∧ ∀ y, y ∈ l → list_min l ≤ y ≤ list_max l.
Proof.
  destruct l as [|x l]; [done|]. intros _.
  destruct (list_min_spec x l) as [? Hmin]. destruct (list_max_spec x l) as [? Hmax].
  repeat split; auto.
Qed.

Lemma elem_of_preprocess_sample_quizzes (quizzes_df : list QuizInfoRow)
  (attempts_df : list AttemptRow) (m : MergedAttempt) :
  m ∈ preprocess_sample_quizzes quizzes_df attempts_df ↔
  ma_attempt m ∈ attempts_df
  ∧ ma_duration_minutes m
    = (inject_Z (at_timefinish (ma_attempt m) - at_timestart (ma_attempt m)) / 60)%Q
  ∧ ma_final_grade m = (at_sumgrades (ma_attempt m) * 100)%Q
  ∧ ma_is_first_attempt m
    = bool_decide (list_min (group_attempts (attempt_key (ma_attempt m)) attempts_df)
                   = at_attempt (ma_attempt m))
  ∧ ma_is_last_attempt m
    = bool_decide (list_max (group_attempts (attempt_key (ma_attempt m)) attempts_df)
                   = at_attempt (ma_attempt m))
  ∧ match ma_quiz_info m with
    | Some q => q ∈ quizzes_df ∧ qi_id q = at_quiz (ma_attempt m)
    | None => ∀ q, q ∈ quizzes_df → qi_id q ≠ at_quiz (ma_attempt m)
    end.
Proof.
  unfold preprocess_sample_quizzes. rewrite list_elem_of_bind. split.
  - intros (a & Hm & Ha).
    destruct (filter (λ q, qi_id q = at_quiz a) quizzes_df) as [|q qs] eqn:E.
    + apply list_elem_of_singleton in Hm as ->. cbn. repeat split; auto.
      by apply (filter_nil_iff (λ q, qi_id q = at_quiz a)).
    + apply list_elem_of_fmap in Hm as (q' & -> & Hq'). cbn.
      rewrite <- E in Hq'. apply list_elem_of_filter in Hq' as [? ?].
      repeat split; auto.
  - intros (Ha & Hd & Hg & Hf & Hl & Hq). exists (ma_attempt m). split; [|exact Ha].
    destruct m as [a d g f l info]. cbn in Ha, Hd, Hg, Hf, Hl, Hq.
    subst d g f l. cbn [ma_attempt].
    destruct (filter (λ q, qi_id q = at_quiz a) quizzes_df) as [|q qs] eqn:E.
    + destruct info as [q0|].
      * destruct Hq as [Hq0 Hid]. exfalso.
        pose proof (proj1 (filter_nil_iff (λ q, qi_id q = at_quiz a) quizzes_df) E) as Hn.
        by apply (Hn q0).
      * left.
    + destruct info as [q0|].
      * destruct Hq as [Hq0 Hid]. apply list_elem_of_fmap. exists q0.
        split; [reflexivity|]. rewrite <- E. by apply list_elem_of_filter.
      * exfalso. apply (Hq q).
        -- assert (q ∈ filter (λ q, qi_id q = at_quiz a) quizzes_df) as Hin
             by (rewrite E; left).
           by apply list_elem_of_filter in Hin as [_ ?].
        -- assert (q ∈ filter (λ q, qi_id q = at_quiz a) quizzes_df) as Hin
             by (rewrite E; left).
           by apply list_elem_of_filter in Hin as [? _].
Qed.

Lemma attempt_has_row (quizzes_df : list QuizInfoRow) (attempts_df : list AttemptRow)
  (a : AttemptRow) :
  a ∈ attempts_df →
  ∃ m, m ∈ preprocess_sample_quizzes quizzes_df attempts_df ∧ ma_attempt m = a.
Proof.
  intros Ha. unfold preprocess_sample_quizzes.
  destruct (filter (λ q, qi_id q = at_quiz a) quizzes_df) as [|q qs] eqn:E.
  - eexists. split.
    + apply list_elem_of_bind. exists a. split; [|exact Ha]. rewrite E. left.
    + reflexivity.
  - eexists. split.
    + apply list_elem_of_bind. exists a. split; [|exact Ha]. rewrite E.
      rewrite fmap_cons. left.
    + reflexivity.
Qed.

Lemma group_attempts_spec (k : key2) (attempts : list AttemptRow) (n : Z) :
  n ∈ group_attempts k attempts
  ↔ ∃ a, a ∈ attempts ∧ attempt_key a = k ∧ at_attempt a = n.
Proof.
  unfold group_attempts. rewrite list_elem_of_fmap. split.
  - intros (a & -> & Ha). apply list_elem_of_filter in Ha as [? ?]. by exists a.
  - intros (a & Ha & Hk & <-). exists a. split; [done|].
    by apply list_elem_of_filter.
Qed.

Lemma group_attempts_nonempty (a : AttemptRow) (attempts : list AttemptRow) :
  a ∈ attempts → group_attempts (attempt_key a) attempts ≠ [].
Proof.
  intros Ha Hnil.
  assert (at_attempt a ∈ group_attempts (attempt_key a) attempts) as Hin
    by (apply group_attempts_spec; by exists a).
  rewrite Hnil in Hin. by apply not_elem_of_nil in Hin.
Qed.

(** X16.  The flags of [preprocess_sample_quizzes] compare the recorded
    attempt numbers, not the positions in the table: a row is a first attempt
    exactly when no attempt of the same user on the same quiz has a smaller
    number, and a last attempt exactly when none has a larger one.  Every
    attempt of the input therefore has, among the rows of its own user and
    quiz, at least one flagged first and at least one flagged last. *)
Theorem sample_quiz_flags_follow_attempt_numbers (quizzes_df : list QuizInfoRow)
  (attempts_df : list AttemptRow) :
  let out := preprocess_sample_quizzes quizzes_df attempts_df in
  (∀ m, m ∈ out →
     (ma_is_first_attempt m = true
      ↔ ∀ a, a ∈ attempts_df → attempt_key a = attempt_key (ma_attempt m) →
             at_attempt (ma_attempt m) ≤ at_attempt a)
     ∧ (ma_is_last_attempt m = true
        ↔ ∀ a, a ∈ attempts_df → attempt_key a = attempt_key (ma_attempt m) →
               at_attempt a ≤ at_attempt (ma_attempt m)))
  ∧ (∀ a, a ∈ attempts_df →
       (∃ m, m ∈ out ∧ attempt_key (ma_attempt m) = attempt_key a
             ∧ ma_is_first_attempt m = true)
       ∧ (∃ m, m ∈ out ∧ attempt_key (ma_attempt m) = attempt_key a
               ∧ ma_is_last_attempt m = true)).
Proof.
  cbn zeta. split.
  - intros m Hm.
    apply elem_of_preprocess_sample_quizzes in Hm as (Ha & _ & _ & -> & -> & _).
    set (a0 := ma_attempt m) in *.
    destruct (list_min_max_nonempty _ (group_attempts_nonempty a0 attempts_df Ha))
      as (Hmin & Hmax & Hbd).
    assert (at_attempt a0 ∈ group_attempts (attempt_key a0) attempts_df) as Hself
      by (apply group_attempts_spec; by exists a0).
    rewrite !bool_decide_eq_true. split; split.
    + intros Heq a Hin Hk. rewrite <- Heq. apply Hbd.
      apply group_attempts_spec. by exists a.
    + intros Hall. apply group_attempts_spec in Hmin as (a & Hin & Hk & Hn).
      specialize (Hall a Hin Hk). specialize (Hbd _ Hself). lia.
    + intros Heq a Hin Hk. rewrite <- Heq. apply Hbd.
      apply group_attempts_spec. by exists a.
    + intros Hall. apply group_attempts_spec in Hmax as (a & Hin & Hk & Hn).
      specialize (Hall a Hin Hk). specialize (Hbd _ Hself). lia.
  - intros a Ha.
    destruct (list_min_max_nonempty _ (group_attempts_nonempty a attempts_df Ha))
      as (Hmin & Hmax & _).
    apply group_attempts_spec in Hmin as (a1 & Hin1 & Hk1 & Hn1).
    apply group_attempts_spec in Hmax as (a2 & Hin2 & Hk2 & Hn2).
    split.
    + destruct (attempt_has_row quizzes_df attempts_df a1 Hin1) as (m & Hm & Hma).
      exists m. split; [exact Hm|]. rewrite Hma. split; [exact Hk1|].
      apply elem_of_preprocess_sample_quizzes in Hm as (_ & _ & _ & -> & _).
      apply bool_decide_eq_true. by rewrite Hma, Hk1.
    + destruct (attempt_has_row quizzes_df attempts_df a2 Hin2) as (m & Hm & Hma).
      exists m. split; [exact Hm|]. rewrite Hma. split; [exact Hk2|].
      apply elem_of_preprocess_sample_quizzes in Hm as (_ & _ & _ & _ & -> & _).
      apply bool_decide_eq_true. by rewrite Hma, Hk2.
Qed.





(** ** Forum posts, further *)

Lemma zip_fmap_self {A B} (g : A → B) (l : list A) :
  zip l (g <$> l) = (λ x, (x, g x)) <$> l.
Proof. induction l as [|x l IH]; [done|]. cbn. by rewrite <- IH. Qed.

Lemma process_forum_data_unfold (df : list RawForumRow) :
  process_forum_data df
  = (λ r, {| pf_row := forum_row_of r;
             pf_modified := rf_modified r;
             pf_post_length := Z.of_nat (String.length (rf_message r));
             pf_hours_to_first_reply :=
               reply_time (forum_row_of <$> df) (forum_row_of r) |}) <$> df.
Proof.
  unfold process_forum_data, _calculate_reply_times. cbn zeta.
  rewrite <- list_fmap_compose, zip_fmap_self, <- list_fmap_compose. done.
Qed.

Lemma hours_nonneg (s : Z) : 0 ≤ s → (0 <= hours s)%Q.
Proof.
  intros Hs. unfold hours. rewrite Qred_correct.
  apply Qle_shift_div_l; [reflexivity|]. rewrite Qmult_0_l.
  change 0%Q with (inject_Z 0). by rewrite <- Zle_Qle.
Qed.

Lemma reply_time_nonneg (df : list ForumRow) (row : ForumRow) (v : Q) :
  (∀ p c, p ∈ df → c ∈ df → fp_parent c = fp_id p → fp_created p ≤ fp_created c) →
  row ∈ df → reply_time df row = Some v → (0 <= v)%Q.
Proof.
  intros Hord Hrow. unfold reply_time.
  destruct (decide (fp_parent row > 0)) as [Hpar|Hpar].
  - destruct (filter (λ p, fp_id p = fp_parent row) df) as [|p ps] eqn:E; [done|].
    intros [= <-]. apply hours_nonneg.
    assert (p ∈ filter (λ p, fp_id p = fp_parent row) df) as Hp by (rewrite E; left).
    apply list_elem_of_filter in Hp as [Hid Hp].
    specialize (Hord p row Hp Hrow (eq_sym Hid)). lia.
  - destruct (filter (λ p, fp_parent p = fp_id row) df) as [|c cs] eqn:E; [done|].
    intros [= <-]. apply hours_nonneg.
    destruct (nsmallest1_spec c cs) as [Hin _]. rewrite <- E in Hin.
    apply list_elem_of_filter in Hin as [Hid Hc].
    specialize (Hord row _ Hrow Hc Hid). lia.
Qed.

(** X18.  [process_forum_data] on a table in which no post is created before
    the post it names as parent: every [hours_to_first_reply] that is a
    number is non-negative (the others are NaN), for replies and for root
    posts alike. *)
Theorem forum_reply_hours_nonnegative (df : list RawForumRow) :
  (∀ p c, p ∈ df → c ∈ df → rf_parent c = rf_id p → rf_created p ≤ rf_created c) →
  ∀ o v, o ∈ process_forum_data df →
         pf_hours_to_first_reply o = Some v → (0 <= v)%Q.
Proof.
  intros Hord o v Ho Hv. rewrite process_forum_data_unfold in Ho.
  apply list_elem_of_fmap in Ho as (r & -> & Hr). cbn in Hv.
  apply (reply_time_nonneg (forum_row_of <$> df) (forum_row_of r)); [| |exact Hv].
  - intros p c Hp Hc Hid.
    apply list_elem_of_fmap in Hp as (p0 & -> & Hp0).
    apply list_elem_of_fmap in Hc as (c0 & -> & Hc0). cbn in *. by apply Hord.
  - by apply list_elem_of_fmap_2.
Qed.

Lemma forum_reply_hours_nonnegative_witness :
  let df := [mkRawForum 1 7 "ann" 0 0 0 "hello"; mkRawForum 2 8 "bob" 1 5400 5400 "hi"] in
  ∃ o v, process_forum_data df !! 1%nat = Some o
         ∧ pf_hours_to_first_reply o = Some v ∧ (0 <= v)%Q.
Proof.
  cbn zeta.
  set (df := [mkRawForum 1 7 "ann" 0 0 0 "hello"; mkRawForum 2 8 "bob" 1 5400 5400 "hi"]).
  assert (∀ p c, p ∈ df → c ∈ df → rf_parent c = rf_id p → rf_created p ≤ rf_created c)
    as Hord.
  { intros p c Hp Hc.
    repeat (apply elem_of_cons in Hp as [->|Hp]);
      repeat (apply elem_of_cons in Hc as [->|Hc]);
      try (by apply not_elem_of_nil in Hp); try (by apply not_elem_of_nil in Hc);
      cbn; lia. }
  destruct (process_forum_data df !! 1%nat) as [o|] eqn:E; [|vm_compute in E; discriminate].
  assert (o ∈ process_forum_data df) as Ho by (eapply list_elem_of_lookup_2; exact E).
  destruct (pf_hours_to_first_reply o) as [v|] eqn:Ev.
  - exists o, v. split; [reflexivity|]. split; [exact Ev|].
    exact (forum_reply_hours_nonnegative df Hord o v Ho Ev).
  - exfalso. vm_compute in E. injection E as <-. discriminate Ev.
Defined.

Lemma filter_unique_is_singleton {A K} `{EqDecision K} (f : A → K) (x : A) (l : list A) :
  NoDup (f <$> l) → x ∈ l → filter (λ y, f y = f x) l = [x].
Proof.
  induction l as [|y l IH]; [by intros _ ?%not_elem_of_nil|].
  rewrite fmap_cons, NoDup_cons. intros [Hy Hnd] Hx. rewrite filter_cons.
  destruct (decide (f y = f x)) as [Hk|Hk].
  - assert (y = x) as ->.
    { apply elem_of_cons in Hx as [->|Hx]; [done|]. exfalso. apply Hy.
      rewrite Hk. by apply list_elem_of_fmap_2. }
    f_equal. apply (filter_nil_iff (λ y, f y = f x)). intros z Hz Hfz. apply Hy.
    rewrite <- Hfz. by apply list_elem_of_fmap_2.
  - apply elem_of_cons in Hx as [->|Hx]; [done|]. by apply IH.
Qed.

(** X19.  In a table whose post ids are pairwise different, a root post
    with a positive id that has replies and its earliest reply carry the
    same [hours_to_first_reply]: the value of the root is found again on one
    of the posts that name it as parent. *)
Theorem earliest_reply_shares_the_root_value (df : list ForumRow) (root : ForumRow) :
  NoDup (fp_id <$> df) →
  root ∈ df → fp_parent root ≤ 0 → 0 < fp_id root →
  (∃ c, c ∈ df ∧ fp_parent c = fp_id root) →
  ∃ c, c ∈ df ∧ fp_parent c = fp_id root
       ∧ (∀ c', c' ∈ df → fp_parent c' = fp_id root → fp_created c ≤ fp_created c')
       ∧ reply_time df root = reply_time df c
       ∧ reply_time df root = Some (hours (fp_created c - fp_created root)).
Proof.
  intros Hnd Hroot Hpar Hid (c0 & Hc0 & Hc0p).
  unfold reply_time at 1 3. rewrite decide_False by lia.
  destruct (filter (λ p, fp_parent p = fp_id root) df) as [|c cs] eqn:E.
  { exfalso. by apply (proj1 (filter_nil_iff (λ p, fp_parent p = fp_id root) df) E c0). }
  destruct (nsmallest1_spec c cs) as [Hin Hmin]. rewrite <- E in Hin, Hmin.
  set (first_reply := nsmallest1 c cs) in *.
  apply list_elem_of_filter in Hin as [Hfp Hfin].
  exists first_reply. split; [exact Hfin|]. split; [exact Hfp|]. split.
  - intros c' Hc' Hc'p. apply Hmin. by apply list_elem_of_filter.
  - split; [|reflexivity]. unfold reply_time. rewrite decide_True by lia.
    rewrite Hfp. by rewrite (filter_unique_is_singleton fp_id root df Hnd Hroot).
Qed.

Lemma earliest_reply_shares_the_root_value_witness :
  let root := mkForum 4 7 "ann" 0 100 false in
  let df := [mkForum 6 9 "cy" 4 9100 true; root; mkForum 5 8 "bob" 4 3700 true] in
  ∃ c, c ∈ df ∧ fp_parent c = fp_id root
       ∧ reply_time df root = reply_time df c
       ∧ reply_time df root = Some (hours (fp_created c - fp_created root)).
Proof.
  cbn zeta.
  destruct (earliest_reply_shares_the_root_value
              [mkForum 6 9 "cy" 4 9100 true; mkForum 4 7 "ann" 0 100 false;
               mkForum 5 8 "bob" 4 3700 true]
              (mkForum 4 7 "ann" 0 100 false))
    as (c & Hc & Hp & _ & Heq & Hval).
  - apply (bool_decide_unpack _). vm_compute. exact I.
  - right; left.
  - cbn; lia.
  - cbn; lia.
  - exists (mkForum 5 8 "bob" 4 3700 true). split; [right; right; left | reflexivity].
  - exists c. auto.
Defined.

(** ** The forum interaction graph, further *)

Lemma add_reply_edge_reply_edge (forum_data : list ForumRow) (G : DiGraph)
  (row : ForumRow) :
  add_reply_edge forum_data G row
  = match reply_edge forum_data row with
    | Some e => add_edge e.1 e.2 G
    | None => G
    end.
Proof.
  unfold add_reply_edge, reply_edge.
  destruct (fp_is_reply row && bool_decide (fp_parent row > 0))%bool; [|done].
  by destruct (filter (λ p, fp_id p = fp_parent row) forum_data).
Qed.

Lemma reply_edge_Some (forum_data : list ForumRow) (row : ForumRow) (e : Z * Z) :
  reply_edge forum_data row = Some e
  ↔ fp_is_reply row = true ∧ fp_parent row > 0
    ∧ ∃ p, head (filter (λ p, fp_id p = fp_parent row) forum_data) = Some p
           ∧ e = (fp_userid row, fp_userid p).
Proof.
  unfold reply_edge. destruct (fp_is_reply row); cbn [andb].
  - case_bool_decide as Hp.
    + destruct (filter (λ p, fp_id p = fp_parent row) forum_data) as [|p ps]; cbn [head].
      * split; [done|]. by intros (_ & _ & p & ? & _).
      * split.
        -- intros [= <-]. eauto.
        -- intros (_ & _ & p' & [= <-] & ->). done.
    + split; [done|]. by intros (_ & ? & _).
  - split; [done|]. by intros (? & _).
Qed.

Lemma elem_of_add_edge (u v : Z) (G : DiGraph) (e : Z * Z) :
  e ∈ edges (add_edge u v G) ↔ e ∈ edges G ∨ e = (u, v).
Proof.
  unfold add_edge. cbn zeta. case_bool_decide as Hin; cbn [edges].
  - rewrite !touch_node_edges in *. split; [auto|]. by intros [?| ->].
  - rewrite !touch_node_edges. rewrite elem_of_app, list_elem_of_singleton. done.
Qed.

Lemma add_edge_NoDup (u v : Z) (G : DiGraph) :
  NoDup (edges G) → NoDup (edges (add_edge u v G)).
Proof.
  intros Hnd. unfold add_edge. cbn zeta. case_bool_decide as Hin; cbn [edges].
  - by rewrite !touch_node_edges.
  - rewrite !touch_node_edges in *. apply NoDup_app. split; [done|]. split.
    + intros x Hx ->%list_elem_of_singleton. done.
    + apply NoDup_singleton.
Qed.

Lemma edge_loop_edges (forum_data rows : list ForumRow) (G : DiGraph) (e : Z * Z) :
  e ∈ edges (foldl (add_reply_edge forum_data) G rows)
  ↔ e ∈ edges G ∨ ∃ row, row ∈ rows ∧ reply_edge forum_data row = Some e.
Proof.
  revert G. induction rows as [|row rows IH]; intros G; cbn [foldl].
  - split; [auto|]. intros [?|(row & ?%not_elem_of_nil & _)]; done.
  - rewrite IH, add_reply_edge_reply_edge. split.
    + intros [He|(r & Hr & Hre)].
      * destruct (reply_edge forum_data row) as [[u v]|] eqn:E; [|auto].
        apply elem_of_add_edge in He as [He| ->]; [auto|].
        right. exists row. split; [left | done].
      * right. exists r. split; [by right | done].
    + intros [He|(r & Hr & Hre)].
      * left. destruct (reply_edge forum_data row) as [[u v]|]; [|done].
        apply elem_of_add_edge. auto.
      * apply elem_of_cons in Hr as [->|Hr]; [|right; eauto].
        left. rewrite Hre. apply elem_of_add_edge. right. by destruct e.
Qed.

Lemma edge_loop_NoDup (forum_data rows : list ForumRow) (G : DiGraph) :
  NoDup (edges G) → NoDup (edges (foldl (add_reply_edge forum_data) G rows)).
Proof.
  revert G. induction rows as [|row rows IH]; intros G Hnd; cbn [foldl]; [done|].
  apply IH. rewrite add_reply_edge_reply_edge.
  destruct (reply_edge forum_data row) as [[u v]|]; [|done]. by apply add_edge_NoDup.
Qed.

Lemma forum_graph_edge_facts (forum_data : list ForumRow) :
  NoDup (edges (forum_graph forum_data))
  ∧ ∀ e, e ∈ edges (forum_graph forum_data)
         ↔ ∃ row, row ∈ forum_data ∧ reply_edge forum_data row = Some e.
Proof.
  unfold forum_graph. cbn zeta. split.
  - apply edge_loop_NoDup. rewrite add_nodes_edges. apply NoDup_nil_2.
  - intros e. rewrite edge_loop_edges, add_nodes_edges. cbn [edges empty_graph].
    split; [intros [?%not_elem_of_nil|?]; done | auto].
Qed.

(** X20.  The edges of the graph of [analyze_forum_interaction_network]
    are exactly the pairs (author of a reply, author of the first post with
    the parent id), over the rows flagged as reply with a positive parent
    whose parent id is found in the table; no edge is stored twice, however
    many replies ask for it. *)
Theorem forum_graph_edges_are_the_replies (forum_data : list ForumRow) :
  NoDup (edges (forum_graph forum_data))
  ∧ ∀ u v, (u, v) ∈ edges (forum_graph forum_data)
     ↔ ∃ row p, row ∈ forum_data
         ∧ fp_is_reply row = true ∧ fp_parent row > 0
         ∧ head (filter (λ p, fp_id p = fp_parent row) forum_data) = Some p
         ∧ u = fp_userid row ∧ v = fp_userid p.
Proof.
  destruct (forum_graph_edge_facts forum_data) as [Hnd Hedges].
  split; [exact Hnd|]. intros u v. rewrite Hedges. split.
  - intros (row & Hrow & (Hr & Hp & p & Hhead & [= -> ->])%reply_edge_Some).
    exists row, p. repeat split; assumption.
  - intros (row & p & Hrow & Hr & Hp & Hhead & -> & ->). exists row.
    split; [done|]. apply reply_edge_Some. eauto 6.
Qed.

(** X21.  The graph of [analyze_forum_interaction_network] has no
    self-loop exactly when no reply of the table resolves to a post of its
    own author: the different-user test that would prevent a self-loop is
    the only thing that does. *)
Theorem forum_graph_self_loops_iff (forum_data : list ForumRow) :
  number_of_selfloops (forum_graph forum_data) = 0
  ↔ ∀ row p, row ∈ forum_data →
       fp_is_reply row = true → fp_parent row > 0 →
       head (filter (λ p, fp_id p = fp_parent row) forum_data) = Some p →
       fp_userid p ≠ fp_userid row.
Proof.
  destruct (forum_graph_edge_facts forum_data) as [_ Hedges].
  unfold number_of_selfloops.
  assert (∀ n : nat, Z.of_nat n = 0 ↔ n = 0%nat) as -> by lia.
  rewrite length_zero_iff_nil, (filter_nil_iff (λ e : Z * Z, e.1 = e.2)). split.
  - intros Hno row p Hrow Hr Hp Hhead Heq.
    apply (Hno (fp_userid row, fp_userid p)); [|done].
    apply Hedges. exists row. split; [done|]. apply reply_edge_Some. eauto 6.
  - intros Hall e He Hloop. apply Hedges in He as (row & Hrow & Hre).
    apply reply_edge_Some in Hre as (Hr & Hp & p & Hhead & ->). cbn in Hloop.
    by apply (Hall row p).
Qed.


















(** ** The course table of the dashboard, further *)

Lemma insert_desc_Permutation (c : CourseRow) (sorted : list CourseRow) :
  insert_desc c sorted ≡ₚ c :: sorted.
Proof.
  induction sorted as [|d sorted IH]; cbn [insert_desc]; [done|].
  destruct (decide (c_enrolled_users d > c_enrolled_users c)); [|done].
  rewrite IH. apply perm_swap.
Qed.

Lemma insert_desc_sorted (c : CourseRow) (sorted : list CourseRow) :
  StronglySorted (λ a b, c_enrolled_users b ≤ c_enrolled_users a) sorted →
  StronglySorted (λ a b, c_enrolled_users b ≤ c_enrolled_users a) (insert_desc c sorted).
Proof.
  induction sorted as [|d sorted IH]; cbn [insert_desc]; intros Hs.
  - repeat constructor.
  - apply StronglySorted_cons in Hs as [Hd Hs].
    destruct (decide (c_enrolled_users d > c_enrolled_users c)) as [Hgt|Hle].
    + apply StronglySorted_cons. split; [|by apply IH].
      rewrite Forall_forall in *. intros x Hx.
      apply elem_of_insert_desc in Hx as [->|Hx]; [lia | by apply Hd].
    + apply StronglySorted_cons. split; [|by apply StronglySorted_cons].
      rewrite Forall_forall in *. intros x Hx.
      apply elem_of_cons in Hx as [->|Hx]; [lia|]. specialize (Hd x Hx). cbn in Hd. lia.
Qed.

Lemma sort_desc_facts (course_data : list CourseRow) :
  foldr insert_desc [] course_data ≡ₚ course_data
  ∧ StronglySorted (λ a b, c_enrolled_users b ≤ c_enrolled_users a)
      (foldr insert_desc [] course_data).
Proof.
  induction course_data as [|c l [IHp IHs]]; cbn [foldr].
  - split; [done | constructor].
  - split; [by rewrite insert_desc_Permutation, IHp | by apply insert_desc_sorted].
Qed.

Lemma top_courses_rows (course_data : list CourseRow) :
  (top_courses course_data).*1 = nlargest 10 course_data.
Proof.
  unfold top_courses. rewrite <- list_fmap_compose. apply list_fmap_id.
Qed.

(** X24.  The table "Top Courses by Enrollment" of [show_course_analytics]
    has min(10, number of courses) rows, ordered by falling enrolment; its
    rows together with the rows left out are the rows of the input, each as
    often as it occurs there, and no row left out has more enrolments than
    a row of the table. *)
Theorem top_courses_are_the_largest (course_data : list CourseRow) :
  let top := (top_courses course_data).*1 in
  length top = (10 `min` length course_data)%nat
  ∧ (∀ i j c d, top !! i = Some c → top !! j = Some d → (i < j)%nat →
                c_enrolled_users d ≤ c_enrolled_users c)
  ∧ ∃ rest, top ++ rest ≡ₚ course_data
            ∧ ∀ c d, c ∈ top → d ∈ rest → c_enrolled_users d ≤ c_enrolled_users c.
Proof.
  cbn zeta. rewrite top_courses_rows. unfold nlargest.
  destruct (sort_desc_facts course_data) as [Hperm Hsorted].
  set (sorted := foldr insert_desc [] course_data) in *.
  split; [|split].
  - rewrite length_take. by rewrite (Permutation_length Hperm).
  - intros i j c d Hi Hj Hij.
    assert (StronglySorted (λ a b, c_enrolled_users b ≤ c_enrolled_users a)
              (take 10 sorted)) as Htop.
    { rewrite <- (take_drop 10 sorted) in Hsorted.
      by apply StronglySorted_app_1_l in Hsorted. }
    rewrite <- (take_drop j (take 10 sorted)) in Htop.
    apply (StronglySorted_app_1_elem_of _ _ _ c d Htop).
    + apply (list_elem_of_lookup_2 _ i). rewrite lookup_take_lt by done. exact Hi.
    + apply (list_elem_of_lookup_2 _ 0). rewrite lookup_drop.
      by rewrite Nat.add_0_r.
  - exists (drop 10 sorted). split; [by rewrite take_drop|].
    intros c d Hc Hd. rewrite <- (take_drop 10 sorted) in Hsorted.
    apply (StronglySorted_app_1_elem_of _ _ _ c d Hsorted Hc Hd).
Qed.

Lemma completion_ratio_unit (c : CourseRow) :
  0 ≤ c_completions c ≤ c_enrolled_users c →
  fdiv (Zf (c_completions c)) (replace_zero_nan (c_enrolled_users c)) = NaN
  ∨ ∃ q, fdiv (Zf (c_completions c)) (replace_zero_nan (c_enrolled_users c)) = Fin q
         ∧ (0 <= q <= 1)%Q.
Proof.
  intros [H0 H1]. unfold replace_zero_nan, Zf.
  destruct (decide (c_enrolled_users c = 0)) as [|Hne]; [by left|]. right.
  cbn [fdiv].
  destruct (Qeq_bool (inject_Z (c_enrolled_users c)) 0) eqn:E.
  { apply Qeq_bool_iff in E. change 0%Q with (inject_Z 0) in E.
    apply (proj1 (inject_Z_injective _ _)) in E. done. }
  eexists. split; [reflexivity|].
  assert (0 < inject_Z (c_enrolled_users c))%Q as Hpos.
  { change 0%Q with (inject_Z 0). rewrite <- Zlt_Qlt. lia. }
  split.
  - apply Qle_shift_div_l; [done|]. rewrite Qmult_0_l.
    change 0%Q with (inject_Z 0). rewrite <- Zle_Qle. lia.
  - apply Qle_shift_div_r; [done|]. rewrite Qmult_1_l, <- Zle_Qle. lia.
Qed.

Lemma fsum_of_unit_values (kept : list fnum) :
  (∀ x, x ∈ kept → ∃ q, x = Fin q ∧ (0 <= q <= 1)%Q) →
  ∃ s, foldr fadd (Fin 0) kept = Fin s
       ∧ (0 <= s <= inject_Z (Z.of_nat (length kept)))%Q.
Proof.
  induction kept as [|x kept IH]; intros Hk.
  - exists 0%Q. split; [done|].
    change (inject_Z (Z.of_nat (length (@nil fnum)))) with 0%Q. lra.
  - destruct (Hk x) as (q & -> & Hq); [left|].
    destruct IH as (s & Hs & Hb); [intros y Hy; apply Hk; by right|].
    exists (q + s)%Q. split; [cbn [foldr]; by rewrite Hs|].
    cbn [length]. rewrite Nat2Z.inj_succ. unfold Z.succ. rewrite inject_Z_plus.
    change (inject_Z 1) with 1%Q. lra.
Qed.

(** X25.  The headline "Avg. Completion Rate" of [show_course_analytics]
    lies in [0, 100] whenever every course has between 0 and
    [enrolled_users] completions: the courses without enrolment are left out
    of the mean, and the mean of ratios of [0, 1] stays in [0, 1]. *)
Theorem avg_completion_rate_in_range (course_data : list CourseRow) :
  (∀ c, c ∈ course_data → 0 ≤ c_completions c ≤ c_enrolled_users c) →
  fbetween 0 100 (avg_completion_rate course_data).
Proof.
  intros Hrange. unfold avg_completion_rate.
  destruct course_data as [|c0 l] eqn:E; [cbn; lra|]. rewrite <- E in *. clear E.
  set (ratios := (λ c, fdiv (Zf (c_completions c))
                            (replace_zero_nan (c_enrolled_users c))) <$> course_data).
  unfold fmean_skipna.
  set (kept := filter (λ x, isnan x = false) ratios).
  assert (∀ x, x ∈ kept → ∃ q, x = Fin q ∧ (0 <= q <= 1)%Q) as Hkept.
  { intros x Hx. apply list_elem_of_filter in Hx as [Hn Hx].
    apply list_elem_of_fmap in Hx as (c & -> & Hc).
    destruct (completion_ratio_unit c (Hrange c Hc)) as [Hnan|?]; [|done].
    rewrite Hnan in Hn. discriminate. }
  destruct (fsum_of_unit_values kept Hkept) as (s & Hs & Hb).
  destruct kept as [|x kept'] eqn:Ek; [cbn; lra|]. rewrite Hs. cbn [fdiv].
  set (n := inject_Z (Z.of_nat (length (x :: kept')))) in *.
  assert (0 < n)%Q as Hn.
  { subst n. change 0%Q with (inject_Z 0). rewrite <- Zlt_Qlt. cbn [length]. lia. }
  destruct (Qeq_bool n 0) eqn:E0; [apply Qeq_bool_iff in E0; lra|].
  cbn [fmul isnan fbetween].
  assert (0 <= s / n <= 1)%Q as [? ?].
  { split; [apply Qle_shift_div_l | apply Qle_shift_div_r]; lra. }
  split; lra.
Qed.

Lemma avg_completion_rate_in_range_witness :
  let course_data := [mkCourse "Algebra" 4 1; mkCourse "Empty" 0 0;
                      mkCourse "Logic" 2 2] in
  fbetween 0 100 (avg_completion_rate course_data).
Proof.
  cbn zeta. apply avg_completion_rate_in_range.
  intros c Hc.
  repeat (apply elem_of_cons in Hc as [->|Hc]); [cbn; lia..|].
  by apply not_elem_of_nil in Hc.
Defined.

(** ** The feature table of the clustering *)


